(** * The self-update service of code-server (src/node/update.ts)

    A shallow embedding of [UpdateService]: the version comparison
    ([isLatestVersion]), the release-name construction ([buildReleaseName]),
    the update check ([doCheckForUpdates]), the download / extract / replace
    pipeline ([doDownloadUpdate]) and the shared error handler
    ([onRequestError]), together with the properties of the specification
    that concern them.

    JavaScript strings are sequences of UTF-16 code units, asynchronous
    functions are computations in a state-and-exception monad over the
    service's world (update state, file system, effect history), and the
    collaborators outside the file (HTTP transport, file system, archive
    extraction, the [ldd] probe) answer through an environment record. *)

From Stdlib Require Import ZArith NArith List Bool Ascii String Lia.
From stdpp Require Import base option list countable gmap.

Set Default Proof Using "Type".
Local Open Scope N_scope.

(** ** JavaScript strings *)

Module JS.

(** A string is its sequence of UTF-16 code units. *)
Abbreviation jsstring := (list N).

(** A string literal of the source: one code unit per (ASCII) character. *)
Definition lit (s : string) : jsstring :=
  List.map N_of_ascii (list_ascii_of_string s).

Definition unit_eqb (a b : N) : bool := N.eqb a b.

(** [a === b] on strings. *)
Fixpoint str_eqb (a b : jsstring) : bool :=
  match a, b with
  | [], [] => true
  | x :: a', y :: b' => unit_eqb x y && str_eqb a' b'
  | _, _ => false
  end.

(** [s.startsWith(p)], the position test that [indexOf] repeats. *)
Fixpoint starts_with (p s : jsstring) : bool :=
  match p, s with
  | [], _ => true
  | x :: p', y :: s' => unit_eqb x y && starts_with p' s'
  | _ :: _, [] => false
  end.

(** [hay.indexOf(needle)] searching from position [from]: the first index
    at which [needle] occurs, or [-1]. *)
Fixpoint indexOf_from (from : Z) (hay needle : jsstring) : Z :=
  if starts_with needle hay then from
  else match hay with
       | [] => (-1)%Z
       | _ :: hay' => indexOf_from (from + 1)%Z hay' needle
       end.

Definition indexOf (hay needle : jsstring) : Z := indexOf_from 0%Z hay needle.

(** *** Numbers produced by [parseInt] *)

(** [parseInt] yields [NaN] or an integral number.  The integer is kept
    exact; the comparison [<=] below is only ever consulted together with
    the equality of the two strings that were parsed. *)
Inductive number := NaN | Int (z : Z).

Definition isNaN (n : number) : bool :=
  match n with NaN => true | Int _ => false end.

(** [a <= b]: false as soon as one side is [NaN]. *)
Definition num_le (a b : number) : bool :=
  match a, b with
  | Int x, Int y => Z.leb x y
  | _, _ => false
  end.

(** ECMAScript [StrWhiteSpaceChar]: white space and line terminators. *)
Definition isWhiteSpace (c : N) : bool :=
  (9 <=? c) && (c <=? 13)
  || (c =? 32) || (c =? 160) || (c =? 5760)
  || (8192 <=? c) && (c <=? 8202)
  || (c =? 8232) || (c =? 8233) || (c =? 8239) || (c =? 8287)
  || (c =? 12288) || (c =? 65279).

Fixpoint trimStart (s : jsstring) : jsstring :=
  match s with
  | c :: s' => if isWhiteSpace c then trimStart s' else s
  | [] => []
  end.

(** The value of a code unit as a digit (0-9, a-z, A-Z). *)
Definition digitValue (c : N) : option Z :=
  if (48 <=? c) && (c <=? 57) then Some (Z.of_N c - 48)%Z
  else if (97 <=? c) && (c <=? 122) then Some (Z.of_N c - 87)%Z
  else if (65 <=? c) && (c <=? 90) then Some (Z.of_N c - 55)%Z
  else None.

(** The longest prefix of [s] made of radix-[R] digits, as digit values. *)
Fixpoint leadingDigits (R : Z) (s : jsstring) : list Z :=
  match s with
  | c :: s' =>
      match digitValue c with
      | Some d => if (d <? R)%Z then d :: leadingDigits R s' else []
      | None => []
      end
  | [] => []
  end.

Definition mathInt (R : Z) (ds : list Z) : Z :=
  fold_left (fun acc d => (acc * R + d)%Z) ds 0%Z.

(** [parseInt(s)] with no radix argument: skip leading white space, take an
    optional sign, switch to radix 16 after a [0x] / [0X] prefix, read the
    longest run of digits; [NaN] when that run is empty. *)
Definition parseInt (s : jsstring) : number :=
  let s1 := trimStart s in
  let '(sign, s2) :=
    match s1 with
    | c :: r => if c =? 45 then ((-1)%Z, r)
                else if c =? 43 then (1%Z, r) else (1%Z, s1)
    | [] => (1%Z, [])
    end in
  let '(R, s3) :=
    match s2 with
    | 48 :: x :: r => if (x =? 120) || (x =? 88) then (16%Z, r) else (10%Z, s2)
    | _ => (10%Z, s2)
    end in
  match leadingDigits R s3 with
  | [] => NaN
  | ds => Int (sign * mathInt R ds)%Z
  end.

End JS.
Import JS.

(** ** Node's [path.join] (POSIX flavour)

    The service runs on the hosts it downloads releases for (linux, alpine,
    darwin), where [path] is [path.posix]: [join] glues its non-empty
    arguments with ["/"] and normalizes the result segment by segment. *)

Module Path.

Definition SLASH : N := 47.
Definition DOT : N := 46.
Definition dotdot : jsstring := [DOT; DOT].

(** The segments between the separators of a path; never the empty list. *)
Fixpoint segments (p : jsstring) : list jsstring :=
  match p with
  | [] => [[]]
  | c :: p' =>
      if c =? SLASH then [] :: segments p'
      else match segments p' with
           | seg :: segs => (c :: seg) :: segs
           | [] => [[c]]
           end
  end.

(** The segments glued back with ["/"]. *)
Fixpoint glue (segs : list jsstring) : jsstring :=
  match segs with
  | [] => []
  | [seg] => seg
  | seg :: segs' => seg ++ SLASH :: glue segs'
  end.

(** One turn of [normalizeString]: the stack holds the segments kept so
    far, innermost first.  Empty and ["."] segments vanish, [".."] removes
    the innermost kept segment (or piles up when the path is relative and
    nothing is left to remove), any other segment is kept. *)
Definition norm_step (allowAboveRoot : bool)
    (stack : list jsstring) (seg : jsstring) : list jsstring :=
  if str_eqb seg [] || str_eqb seg [DOT] then stack
  else if str_eqb seg dotdot then
    match stack with
    | top :: rest =>
        if str_eqb top dotdot
        then (if allowAboveRoot then dotdot :: stack else stack)
        else rest
    | [] => if allowAboveRoot then [dotdot] else []
    end
  else seg :: stack.

Definition norm_stack (allowAboveRoot : bool) (p : jsstring) : list jsstring :=
  fold_left (norm_step allowAboveRoot) (segments p) [].

Definition normalizeString (p : jsstring) (allowAboveRoot : bool) : jsstring :=
  glue (rev (norm_stack allowAboveRoot p)).

Definition first_is_slash (p : jsstring) : bool :=
  match p with c :: _ => c =? SLASH | [] => false end.

Definition last_is_slash (p : jsstring) : bool :=
  match last p with Some c => c =? SLASH | None => false end.

(** [path.normalize]. *)
Definition normalize (p : jsstring) : jsstring :=
  match p with
  | [] => [DOT]
  | _ =>
      let isAbsolute := first_is_slash p in
      let trailingSeparator := last_is_slash p in
      match normalizeString p (negb isAbsolute) with
      | [] => if isAbsolute then [SLASH]
              else if trailingSeparator then [DOT; SLASH] else [DOT]
      | q => (if isAbsolute then [SLASH] else [])
             ++ q ++ (if trailingSeparator then [SLASH] else [])
      end
  end.

(** [path.join(...args)]. *)
Definition join (args : list jsstring) : jsstring :=
  match List.filter (fun a => negb (str_eqb a [])) args with
  | [] => [DOT]
  | parts => normalize (glue parts)
  end.

End Path.

(** ** Data model *)

(** [Error] objects, as far as the service looks at them. *)
Record Error := mkError { err_name : jsstring; message : jsstring }.

(** [new Error(msg)]. *)
Definition new_Error (msg : jsstring) : Error :=
  {| err_name := lit "Error"; message := msg |}.

(** The release feed's answer, [interface IUpdate { name: string }]. *)
Record IUpdate := { name : jsstring }.

(** The update carried by the states of the update service (the fields of
    the platform's update record that this file fills in). *)
Record Update := { version : jsstring; productVersion : jsstring }.

Inductive UpdateType := Setup | Archive | Snap.

(** A value of type [any], as far as its truthiness goes. *)
Inductive any :=
| undefined | null | boolean (b : bool) | text (s : jsstring) | object.

Inductive StateType :=
| TUninitialized | TIdle | TCheckingForUpdates | TAvailableForDownload
| TDownloading | TDownloaded | TUpdating | TReady.

(** The tagged states of the platform's update service; [Idle] optionally
    carries an error message. *)
Inductive State :=
| Uninitialized
| Idle (updateType : UpdateType) (error : option jsstring)
| CheckingForUpdates (context : any)
| AvailableForDownload (update : Update)
| Downloading (update : Update)
| Downloaded (update : Update)
| Updating (update : Update)
| Ready (update : Update).

Definition type (s : State) : StateType :=
  match s with
  | Uninitialized => TUninitialized
  | Idle _ _ => TIdle
  | CheckingForUpdates _ => TCheckingForUpdates
  | AvailableForDownload _ => TAvailableForDownload
  | Downloading _ => TDownloading
  | Downloaded _ => TDownloaded
  | Updating _ => TUpdating
  | Ready _ => TReady
  end.

Definition StateType_eqb (a b : StateType) : bool :=
  match a, b with
  | TUninitialized, TUninitialized | TIdle, TIdle
  | TCheckingForUpdates, TCheckingForUpdates
  | TAvailableForDownload, TAvailableForDownload
  | TDownloading, TDownloading | TDownloaded, TDownloaded
  | TUpdating, TUpdating | TReady, TReady => true
  | _, _ => false
  end.

(** *** Promises and truthiness *)

(** A settled promise.  A promise is an object whatever it settles to. *)
Inductive Promise (A : Type) := Resolved (a : A) | Rejected (e : Error).
Arguments Resolved {A} a.
Arguments Rejected {A} e.

(** ECMAScript [ToBoolean], the test behind [if], [!], [||] and [?:]. *)
Class ToBoolean (A : Type) := truthy : A -> bool.

#[export] Instance bool_truthy : ToBoolean bool := fun b => b.
#[export] Instance string_truthy : ToBoolean jsstring :=
  fun s => match s with [] => false | _ => true end.
#[export] Instance any_truthy : ToBoolean any :=
  fun v => match v with
           | undefined | null => false
           | boolean b => b
           | text s => truthy s
           | object => true
           end.
(** [T | null] for an object type [T]. *)
#[export] Instance nullable_truthy : ToBoolean (option IUpdate) :=
  fun o => match o with Some _ => true | None => false end.
#[export] Instance promise_truthy {A} : ToBoolean (Promise A) := fun _ => true.

(** [Error.prototype.toString]. *)
Definition toString (e : Error) : jsstring :=
  match err_name e, message e with
  | [], m => m
  | n, [] => n
  | n, m => n ++ lit ": " ++ m
  end.

(** ** The world of the service *)

Abbreviation Content := (list N).

(** What the service does to the outside, in the order it does it. *)
Inductive Event :=
| EvSetState (s : State)
| EvLogError (e : Error)
| EvRequest (url : jsstring)
| EvExec (command : jsstring)
| EvMkdirp (p : jsstring)
| EvWriteFile (p : jsstring)
| EvExtract (src dst : jsstring)
| EvUnlink (p : jsstring)
| EvMove (src dst : jsstring)
| EvRimraf (p : jsstring).

(** The live update state, the files on disk, and the history of effects,
    oldest first, each with the files as they were when it began. *)
Record World := mkWorld {
  state : State;
  fs : gmap jsstring Content;
  history : list (Event * gmap jsstring Content)
}.

Definition trace (w : World) : list Event := (history w).*1.

(** An HTTP response as the request service hands it over: the
    [content-encoding] header, the raw socket stream [res] and the stream
    the request service exposes. *)
Record Response := {
  content_encoding : option jsstring;
  res : Content;
  stream : Content
}.

Inductive Outcome (A : Type) := Return (a : A) | Throw (e : Error).
Arguments Return {A} a.
Arguments Throw {A} e.

Inductive ExecResult :=
| ExecOk (stdout stderr : jsstring)
| ExecFailed (error : Error).

(** The host and the collaborators: constants of the process, and the
    answer each external call gets. *)
Record Env := {
  platform : jsstring;                       (* os.platform() *)
  arch : jsstring;                           (* os.arch() *)
  argv0 : jsstring;                          (* process.argv[0] *)
  tmpdir : jsstring;                         (* vs/server/src/node/util *)
  codeServerVersion : jsstring;              (* pkg.codeServerVersion *)
  request_result : jsstring -> Outcome Response;
  asJson : Response -> Outcome (option IUpdate);
  exec_result : jsstring -> ExecResult;
  gunzip : Content -> Content;
  mkdirp_error : jsstring -> option Error;
  writeFile_error : jsstring -> option Error;
  extract_result :
    jsstring -> jsstring -> Outcome (list (jsstring * Content));
  unlink_error : jsstring -> option Error;
  move_error : jsstring -> jsstring -> option Error;
  rimraf_error : jsstring -> option Error
}.

(** *** Computations *)

Definition M (A : Type) : Type := World -> Outcome A * World.

#[export] Instance M_ret : MRet M := fun A a w => (Return a, w).
#[export] Instance M_bind : MBind M := fun A B f m w =>
  match m w with
  | (Return a, w') => f a w'
  | (Throw e, w') => (Throw e, w')
  end.

Definition throw {A} (e : Error) : M A := fun w => (Throw e, w).

(** [try { body } catch (error) { handler(error) }]. *)
Definition try_catch {A} (body : M A) (handler : Error -> M A) : M A :=
  fun w =>
    match body w with
    | (Return a, w') => (Return a, w')
    | (Throw e, w') => handler e w'
    end.

(** Calling an [async] function yields a promise and never throws. *)
Definition call {A} (body : M A) : M (Promise A) :=
  fun w =>
    match body w with
    | (Return a, w') => (Return (Resolved a), w')
    | (Throw e, w') => (Return (Rejected e), w')
    end.

(** [await p]. *)
Definition await {A} (p : Promise A) : M A :=
  match p with
  | Resolved a => mret a
  | Rejected e => throw e
  end.

(** [await Promise.all(ps)] over promises that have all been started:
    rejects with the first rejection. *)
Fixpoint await_all {A} (ps : list (Promise A)) : M (list A) :=
  match ps with
  | [] => mret []
  | p :: ps' => a ← await p; l ← await_all ps'; mret (a :: l)
  end.

(** [xs.map(f)] for an effectful [f]. *)
Fixpoint map_M {A B} (f : A -> M B) (xs : list A) : M (list B) :=
  match xs with
  | [] => mret []
  | x :: xs' => b ← f x; l ← map_M f xs'; mret (b :: l)
  end.

Definition emit (e : Event) : M unit := fun w =>
  (Return tt, {| state := state w; fs := fs w;
                 history := history w ++ [(e, fs w)] |}).

Definition set_fs (f : gmap jsstring Content) : M unit := fun w =>
  (Return tt, {| state := state w; fs := f; history := history w |}).

Definition get_fs : M (gmap jsstring Content) := fun w => (Return (fs w), w).

Definition get_state : M State := fun w => (Return (state w), w).

Definition lift {A} (o : Outcome A) : M A := fun w => (o, w).

Definition fail_if (o : option Error) : M unit :=
  match o with Some e => throw e | None => mret tt end.

(** ** Collaborators *)

(** [this.setState(s)] of the abstract update service. *)
Definition setState (s : State) : M unit := fun w =>
  (Return tt, {| state := s; fs := fs w;
                 history := history w ++ [(EvSetState s, fs w)] |}).

(** [this.logService.error(e)]. *)
Definition logError (e : Error) : M unit := emit (EvLogError e).

Definition ENOENT : Error :=
  {| err_name := lit "Error";
     message := lit "ENOENT: no such file or directory" |}.

(** [q] is [p] itself or lies below the directory [p]. *)
Definition under (p q : jsstring) : bool :=
  str_eqb q p || starts_with (p ++ [Path.SLASH]) q.

Section Service.

Variable env : Env.

(** [requestService.request({ url }, ...)]. *)
Definition request (url : jsstring) : M Response :=
  emit (EvRequest url);; lift (request_result env url).

(** [util.promisify(cp.exec)(command)]. *)
Definition exec (command : jsstring) : M ExecResult := fun w =>
  (Return (exec_result env command),
   {| state := state w; fs := fs w;
      history := history w ++ [(EvExec command, fs w)] |}).

(** [pfs.mkdirp(p)]. *)
Definition mkdirp (p : jsstring) : M unit :=
  emit (EvMkdirp p);; fail_if (mkdirp_error env p).

(** [fileService.writeFile(URI.file(p), data)]. *)
Definition writeFile (p : jsstring) (data : Content) : M unit :=
  emit (EvWriteFile p);;
  fail_if (writeFile_error env p);;
  files ← get_fs;
  set_fs (<[p := data]> files).

(** [extract(src, dst, ...)] of the marketplace module, a black box that
    either fails or unpacks a list of files. *)
Definition extract (src dst : jsstring) : M unit :=
  emit (EvExtract src dst);;
  unpacked ← lift (extract_result env src dst);
  files ← get_fs;
  set_fs (list_to_map unpacked ∪ files).

(** [pfs.exists(p)].  The functions of [vs/base/node/pfs] answer through
    promises (the file awaits [mkdirp], [unlink], [move] and [rimraf]);
    [exists] promises whether something is at [p]. *)
Definition pfs_exists (p : jsstring) : M (Promise bool) :=
  files ← get_fs;
  mret (Resolved (bool_decide (is_Some (files !! p)))).

(** [pfs.unlink(p)]. *)
Definition unlink (p : jsstring) : M unit :=
  emit (EvUnlink p);;
  fail_if (unlink_error env p);;
  files ← get_fs;
  match files !! p with
  | Some _ => set_fs (delete p files)
  | None => throw ENOENT
  end.

(** [pfs.move(src, dst)]. *)
Definition move (src dst : jsstring) : M unit :=
  emit (EvMove src dst);;
  fail_if (move_error env src dst);;
  files ← get_fs;
  match files !! src with
  | Some data => set_fs (<[dst := data]> (delete src files))
  | None => throw ENOENT
  end.

(** [pfs.rimraf(p)]: removes [p] and everything below it. *)
Definition rimraf (p : jsstring) : M unit :=
  emit (EvRimraf p);;
  fail_if (rimraf_error env p);;
  files ← get_fs;
  set_fs (filter (fun kv => under p kv.1 = false) files).

(** ** The update service *)

(** [buildUpdateFeedUrl]; the abstract service stores it as [this.url]. *)
Definition buildUpdateFeedUrl : jsstring :=
  lit "https://api.github.com/repos/cdr/code-server/releases/latest".

Definition getLatestVersion : M (option IUpdate) :=
  data ← request buildUpdateFeedUrl;
  lift (asJson env data).

Definition isLatestVersion (latest : option IUpdate) : M bool :=
  latest ← (if negb (truthy latest) then getLatestVersion else mret latest);
  match latest with
  | Some l =>
      let latestMajor := parseInt (name l) in
      let currentMajor := parseInt (codeServerVersion env) in
      mret (negb (isNaN latestMajor) && negb (isNaN currentMajor)
            && num_le currentMajor latestMajor
            && str_eqb (name l) (codeServerVersion env))
  | None => mret true
  end.

Definition onRequestError (error : Error) (showNotification : bool) : M unit :=
  logError error;;
  let message : option jsstring :=
    if showNotification
    then Some (if truthy (message error) then message error
               else toString error)
    else None in
  setState (Idle Archive message).

Definition TypeError_null : Error :=
  {| err_name := lit "TypeError";
     message := lit "Cannot read property 'name' of null" |}.

Definition doCheckForUpdates (context : any) : M unit :=
  current ← get_state;
  if negb (StateType_eqb (type current) TIdle) then mret tt
  else
    setState (CheckingForUpdates context);;
    try_catch
      (update ← getLatestVersion;
       (* !update || this.isLatestVersion(update) *)
       is_latest ←
         (if negb (truthy update) then mret true
          else p ← call (isLatestVersion update); mret (truthy p));
       if is_latest : bool then setState (Idle Archive None)
       else match update with
            | Some u =>
                setState (AvailableForDownload
                            {| version := name u; productVersion := name u |})
            | None => throw TypeError_null
            end)
      (fun error => onRequestError error (truthy context)).

Definition buildReleaseName (release : jsstring) : M jsstring :=
  let target := platform env in
  target ←
    (if str_eqb target (lit "linux") then
       result ← exec (lit "ldd --version");
       (* .catch((error) => ({ stderr: error.message, stdout: "" })) *)
       let '(stdout, stderr) :=
         match result with
         | ExecOk out err => (out, err)
         | ExecFailed error => ([], message error)
         end in
       if negb (indexOf stderr (lit "musl") =? -1)%Z
          || negb (indexOf stdout (lit "musl") =? -1)%Z
       then mret (lit "alpine") else mret target
     else mret target);
  let arch := arch env in
  let arch := if str_eqb arch (lit "x64") then lit "x86_64" else arch in
  mret (lit "code-server" ++ release ++ lit "-" ++ target ++ lit "-" ++ arch).

(** The constants of [doDownloadUpdate]: the asset's URL, the path the
    archive is written to, the directory it is unpacked in and the place
    of the new binary inside it. *)
Definition downloadUrl (release releaseName : jsstring) : jsstring :=
  lit "https://github.com/cdr/code-server/releases/download/"
  ++ release ++ lit "/" ++ releaseName
  ++ lit "."
  ++ (if str_eqb (platform env) (lit "darwin") then lit "zip"
      else lit "tar.gz").

Definition downloadPath (release : jsstring) : jsstring :=
  Path.join [tmpdir env; release ++ lit "-archive"].

Definition extractPath (release : jsstring) : jsstring :=
  Path.join [tmpdir env; release].

Definition newBinaryPath (release releaseName : jsstring) : jsstring :=
  Path.join [extractPath release; releaseName; lit "code-server"].

(** [doDownloadUpdate(state)], for the update of an [AvailableForDownload]
    state. *)
Definition doDownloadUpdate (update : Update) : M unit :=
  setState (Updating update);;
  let target := platform env in
  releaseName ← buildReleaseName (version update);
  let url := downloadUrl (version update) releaseName in
  let downloadPath := downloadPath (version update) in
  let extractPath := extractPath (version update) in
  try_catch
    (mkdirp (tmpdir env);;
     context ← request url;
     (* Decompress the gzip as we download, unless the request service
        already did. *)
     let data :=
       if negb (str_eqb target (lit "darwin"))
          && negb (match content_encoding context with
                   | Some enc => str_eqb enc (lit "gzip")
                   | None => false
                   end)
       then gunzip env (res context)
       else stream context in
     writeFile downloadPath data;;
     extract downloadPath extractPath;;
     let newBinary := newBinaryPath (version update) releaseName in
     (* if (!pfs.exists(newBinary)) *)
     found ← pfs_exists newBinary;
     (if negb (truthy found)
      then throw (new_Error (lit "No code-server binary in extracted archive"))
      else mret tt);;
     unlink (argv0 env);;  (* Must unlink first to avoid ETXTBSY. *)
     move newBinary (argv0 env);;
     setState (Ready update))
    (fun error => onRequestError error true);;
  (* Promise.all([downloadPath, extractPath].map((p) => pfs.rimraf(p))) *)
  started ← map_M (fun p => call (rimraf p)) [downloadPath; extractPath];
  _ ← await_all started;
  mret tt.

End Service.

(** ** Sample hosts

    Concrete environments and disks on which the service is run in the
    examples below. *)

Definition sample_response : Response :=
  {| content_encoding := None; res := [31; 139; 8]; stream := [31; 139; 8] |}.

(** A host on which every collaborator succeeds: operating system, CPU,
    running version, the answer of the libc probe, the release the feed
    announces and the files the release archive unpacks to. *)
Definition host (os cpu running : string) (probe : ExecResult)
    (feed : option IUpdate) (unpacked : list (jsstring * Content)) : Env :=
  {| platform := lit os;
     arch := lit cpu;
     argv0 := lit "/usr/local/bin/code-server";
     tmpdir := lit "/tmp/code-server";
     codeServerVersion := lit running;
     request_result := fun _ => Return sample_response;
     asJson := fun _ => Return feed;
     exec_result := fun _ => probe;
     gunzip := fun c => c;
     mkdirp_error := fun _ => None;
     writeFile_error := fun _ => None;
     extract_result := fun _ _ => Return unpacked;
     unlink_error := fun _ => None;
     move_error := fun _ _ => None;
     rimraf_error := fun _ => None |}.

Definition glibc_probe : ExecResult :=
  ExecOk (lit "ldd (GNU libc) 2.28") [].

(** What [ldd --version] does on Alpine: it exits with status 1 after
    printing its banner on the error stream, so [exec] rejects. *)
Definition alpine_probe : ExecResult :=
  ExecFailed (new_Error (lit "Command failed: ldd --version musl libc (x86_64)")).

Definition release_9_9_9 : IUpdate := {| name := lit "9.9.9" |}.

Definition update_9_9_9 : Update :=
  {| version := lit "9.9.9"; productVersion := lit "9.9.9" |}.

(** A disk holding the running executable, the service at rest. *)
Definition installed : World :=
  {| state := Idle Archive None;
     fs := {[ lit "/usr/local/bin/code-server" := [127; 69; 76; 70] ]};
     history := [] |}.

(** The same disk while a check is in flight. *)
Definition checking : World :=
  {| state := CheckingForUpdates undefined;
     fs := fs installed;
     history := [] |}.

(** A linux host running 1.0.0 while the feed announces 9.9.9, whose
    archive holds no binary at all. *)
Definition linux_host : Env :=
  host "linux" "x64" "1.0.0" glibc_probe (Some release_9_9_9) [].

(** The same host with a well-formed archive. *)
Definition linux_host_good_archive : Env :=
  host "linux" "x64" "1.0.0" glibc_probe (Some release_9_9_9)
    [(lit "/tmp/code-server/9.9.9/code-server9.9.9-linux-x86_64/code-server",
      [127; 69; 76; 70; 2])].

Definition darwin_host : Env :=
  host "darwin" "x64" "1.0.0" glibc_probe (Some release_9_9_9) [].

Definition alpine_host : Env :=
  host "linux" "x64" "1.0.0" alpine_probe (Some release_9_9_9) [].



(** ** What the specification says, in its own words *)

(** [hay] contains [needle] as a substring. *)
Definition contains (hay needle : jsstring) : Prop :=
  exists pre post, hay = pre ++ needle ++ post.

(** The error and output text of the libc probe as the service reads them:
    a probe that could not run reports its error message as error text. *)
Definition probe_stderr (r : ExecResult) : jsstring :=
  match r with ExecOk _ err => err | ExecFailed error => message error end.

Definition probe_stdout (r : ExecResult) : jsstring :=
  match r with ExecOk out _ => out | ExecFailed _ => [] end.

(** "musl detected": the probe's output or error text mentions musl. *)
Definition musl_detected (env : Env) : Prop :=
  let r := exec_result env (lit "ldd --version") in
  contains (probe_stderr r) (lit "musl") \/ contains (probe_stdout r) (lit "musl").

(** The effects of [buildReleaseName]: the probe, on linux only. *)
Definition probe_history (env : Env) (w : World)
    : list (Event * gmap jsstring Content) :=
  if str_eqb (platform env) (lit "linux")
  then [(EvExec (lit "ldd --version"), fs w)] else [].

(** The architecture segment: x64 becomes x86_64, anything else stays. *)
Definition arch_segment (env : Env) : jsstring :=
  if str_eqb (arch env) (lit "x64") then lit "x86_64" else arch env.

(** Every move in a stretch of history targets [exe], happens right after
    an unlink of [exe], and finds nothing linked at [exe]. *)
Fixpoint moves_guarded (exe : jsstring) (prev : option Event)
    (h : list (Event * gmap jsstring Content)) : Prop :=
  match h with
  | [] => True
  | (EvMove src dst, files) :: h' =>
      dst = exe /\ files !! exe = None /\ prev = Some (EvUnlink exe)
      /\ moves_guarded exe (Some (EvMove src dst)) h'
  | (e, _) :: h' => moves_guarded exe (Some e) h'
  end.

(** A segment has no separator inside. *)
Definition slash_free (s : jsstring) : Prop :=
  Forall (fun c => c <> Path.SLASH) s.

(** The stack of [normalizeString] only ever holds real segments. *)
Definition tidy (stack : list jsstring) : Prop :=
  Forall (fun s => s <> [] /\ slash_free s) stack.

(** The empty segment in front of the root of an absolute path. *)
Definition root_segment (p : jsstring) : list jsstring :=
  if Path.first_is_slash p then [[]] else [].

(** ** The service in closed form

    Pure readings of what the effectful code computes, used to state how
    the operations behave as a whole. *)

(** The platform segment [buildReleaseName] settles on. *)
Definition target_segment (env : Env) : jsstring :=
  let r := exec_result env (lit "ldd --version") in
  if str_eqb (platform env) (lit "linux")
     && (negb (indexOf (probe_stderr r) (lit "musl") =? -1)%Z
         || negb (indexOf (probe_stdout r) (lit "musl") =? -1)%Z)
  then lit "alpine" else platform env.

(** The name [buildReleaseName] returns. *)
Definition release_name (env : Env) (release : jsstring) : jsstring :=
  lit "code-server" ++ release ++ lit "-" ++ target_segment env
  ++ lit "-" ++ arch_segment env.

(** The bytes [doDownloadUpdate] hands to [writeFile] for a response. *)
Definition written_data (env : Env) (response : Response) : Content :=
  if negb (str_eqb (platform env) (lit "darwin"))
     && negb (match content_encoding response with
              | Some enc => str_eqb enc (lit "gzip")
              | None => false
              end)
  then gunzip env (res response)
  else stream response.

(** The steps of a download attempt between entering [Updating] and the
    final report, in program order. *)
Definition pipeline (env : Env) (release : jsstring) : list Event :=
  let archive := downloadPath env release in
  let unpacked := extractPath env release in
  [ EvMkdirp (tmpdir env);
    EvRequest (downloadUrl env release (release_name env release));
    EvWriteFile archive;
    EvExtract archive unpacked;
    EvUnlink (argv0 env);
    EvMove (newBinaryPath env release (release_name env release)) (argv0 env) ].

(** The message [onRequestError] attaches when asked to notify. *)
Definition notification (error : Error) : jsstring :=
  if truthy (message error) then message error else toString error.

(** A segment that [normalizeString] keeps as it is. *)
Definition regular (seg : jsstring) : Prop :=
  seg <> [] /\ slash_free seg /\ seg <> [Path.DOT] /\ seg <> Path.dotdot.

(** A decimal digit other than zero. *)
Definition nonzero_digit (c : N) : Prop := 49 <= c <= 57.

(** An absolute path in normal form: a root followed by one or more
    regular segments. *)
Definition clean_absolute (p : jsstring) : Prop :=
  exists segs, Path.segments p = [] :: segs /\ segs <> [] /\ Forall regular segs.

(** The host [env] with a temporary root that cannot be created. *)
Definition no_tmp (env : Env) (error : Error) : Env :=
  {| platform := platform env; arch := arch env; argv0 := argv0 env;
     tmpdir := tmpdir env; codeServerVersion := codeServerVersion env;
     request_result := request_result env;
     asJson := asJson env; exec_result := exec_result env;
     gunzip := gunzip env; mkdirp_error := fun _ => Some error;
     writeFile_error := writeFile_error env;
     extract_result := extract_result env;
     unlink_error := unlink_error env; move_error := move_error env;
     rimraf_error := rimraf_error env |}.

(** The host [env] with a transport on which every request fails. *)
Definition offline (env : Env) (error : Error) : Env :=
  {| platform := platform env; arch := arch env; argv0 := argv0 env;
     tmpdir := tmpdir env; codeServerVersion := codeServerVersion env;
     request_result := fun _ => Throw error;
     asJson := asJson env; exec_result := exec_result env;
     gunzip := gunzip env; mkdirp_error := mkdirp_error env;
     writeFile_error := writeFile_error env;
     extract_result := extract_result env;
     unlink_error := unlink_error env; move_error := move_error env;
     rimraf_error := rimraf_error env |}.


(** * Properties *)

(** ** Strings *)

Section Strings.

Lemma str_eqb_refl (a : jsstring) : str_eqb a a = true.
Proof.
  induction a as [|x a IH]; simpl; [done|].
  unfold unit_eqb. by rewrite N.eqb_refl.
Qed.

Lemma str_eqb_eq (a b : jsstring) : str_eqb a b = true <-> a = b.
Proof.
  split; [|intros ->; apply str_eqb_refl].
  revert b. induction a as [|x a IH]; intros [|y b]; simpl; try done.
  unfold unit_eqb. intros [Hxy Hab]%andb_prop.
  apply N.eqb_eq in Hxy. f_equal; auto.
Qed.

Lemma str_eqb_neq (a b : jsstring) : str_eqb a b = false <-> a <> b.
Proof.
  rewrite <- str_eqb_eq. destruct (str_eqb a b); split; congruence.
Qed.

Lemma starts_with_prefix (p s : jsstring) :
  starts_with p s = true <-> exists post, s = p ++ post.
Proof.
  revert s. induction p as [|x p IH]; intros s; simpl.
  - split; [intros _; by exists s | done].
  - destruct s as [|y s].
    + split; [done | intros [post Hpost]; discriminate Hpost].
    + unfold unit_eqb. rewrite andb_true_iff, IH, N.eqb_eq. split.
      * intros [-> [post ->]]. by exists post.
      * intros [post Hpost]. injection Hpost as -> ->. eauto.
Qed.

Lemma contains_cons (c : N) (hay needle : jsstring) :
  contains (c :: hay) needle <->
  starts_with needle (c :: hay) = true \/ contains hay needle.
Proof.
  rewrite starts_with_prefix. unfold contains. split.
  - intros [[|d pre] [post Heq]]; simpl in Heq.
    + left. by exists post.
    + right. injection Heq as -> ->. by exists pre, post.
  - intros [[post Heq] | [pre [post ->]]].
    + by exists [], post.
    + by exists (c :: pre), post.
Qed.

Lemma indexOf_from_found (k : Z) (hay needle : jsstring) :
  (0 <= k)%Z ->
  (indexOf_from k hay needle <> -1)%Z <-> contains hay needle.
Proof.
  revert k. induction hay as [|c hay IH]; intros k Hk.
  - simpl. destruct needle as [|x needle]; simpl.
    + split; [intros _; by exists [], [] | lia].
    + split; [done|]. intros [pre [post Heq]].
      by destruct pre.
  - rewrite contains_cons. cbn [indexOf_from].
    destruct (starts_with needle (c :: hay)) eqn:Hstart.
    + split; [by left | lia].
    + rewrite IH by lia. split; [by right | by intros [?|?]].
Qed.

(** [indexOf] answers [-1] exactly when the needle does not occur. *)
Lemma indexOf_found (hay needle : jsstring) :
  (indexOf hay needle =? -1)%Z = false <-> contains hay needle.
Proof.
  rewrite Z.eqb_neq. by apply indexOf_from_found.
Qed.

Lemma indexOf_missing (hay needle : jsstring) :
  (indexOf hay needle =? -1)%Z = true <-> ~ contains hay needle.
Proof.
  rewrite <- indexOf_found. destruct (indexOf hay needle =? -1)%Z; split;
    congruence.
Qed.

End Strings.

Example parseInt_semver : parseInt (lit "2.1523-vsc1.38.1") = Int 2.
Proof. reflexivity. Qed.

Example parseInt_hex : parseInt (lit "  -0x1Fz") = Int (-31).
Proof. reflexivity. Qed.

Example parseInt_word : parseInt (lit "nightly") = NaN.
Proof. reflexivity. Qed.

Example indexOf_musl :
  indexOf (lit "musl libc (x86_64)") (lit "musl") = 0%Z
  /\ indexOf (lit "ldd (GNU libc) 2.28") (lit "musl") = (-1)%Z
  /\ indexOf (lit "Command failed: musl") (lit "musl") = 16%Z.
Proof. repeat split; reflexivity. Qed.

Example join_plain :
  Path.join [lit "/tmp/code-server"; lit "2.0"] = lit "/tmp/code-server/2.0".
Proof. reflexivity. Qed.

Example join_dots :
  Path.join [lit "/tmp//a/./b/"; lit "../../../../x/"] = lit "/x/"
  /\ Path.join [lit "a"; lit "../../.."] = lit "../.."
  /\ Path.join [lit ""; lit ""] = lit "."
  /\ Path.join [lit "a/"; lit ".."] = lit "."
  /\ Path.join [lit "./"; lit ""] = lit "./".
Proof. repeat split; reflexivity. Qed.

(** ** Running computations *)

(** Unfolds the monad and the collaborators, leaving strings, paths and
    the file map folded. *)
Ltac run :=
  cbv beta iota zeta delta
    [mbind mret M_bind M_ret throw try_catch call await await_all map_M
     emit set_fs get_fs get_state lift fail_if setState logError
     request exec mkdirp writeFile extract pfs_exists unlink move rimraf
     getLatestVersion isLatestVersion onRequestError doCheckForUpdates
     buildReleaseName doDownloadUpdate
     truthy bool_truthy promise_truthy nullable_truthy
     state fs history negb fst snd].

(** ** Version comparison *)




(** When the parse of the release name fails, the answer is false whatever
    the two strings are. *)
Lemma isLatestVersion_unparsable (env : Env) (latest : IUpdate) (w : World) :
  isNaN (parseInt (name latest)) = true ->
  isLatestVersion env (Some latest) w = (Return false, w).
Proof. intros Hparse. run. by rewrite Hparse. Qed.

(** A release whose name differs from the running version is not the
    latest: this is the value the promise of [isLatestVersion] settles to. *)
Lemma isLatestVersion_different_names (env : Env) (latest : IUpdate)
    (w : World) :
  name latest <> codeServerVersion env ->
  isLatestVersion env (Some latest) w = (Return false, w).
Proof.
  intros Hne%str_eqb_neq. run. by rewrite Hne, andb_false_r.
Qed.

(** ** The error handler *)



(** ** Checking for updates *)

(** C6: called while the state's type is not [Idle], [doCheckForUpdates]
    returns at once: the world (state, files, history of effects, hence
    no request) is unchanged. *)
Theorem doCheckForUpdates_not_idle (env : Env) (context : any) (w : World) :
  type (state w) <> TIdle ->
  doCheckForUpdates env context w = (Return tt, w).
Proof.
  intros Hty. destruct w as [st files h]. simpl in Hty.
  run. by destruct st.
Qed.

Lemma doCheckForUpdates_not_idle_witness :
  doCheckForUpdates linux_host object checking = (Return tt, checking).
Proof.
  apply (doCheckForUpdates_not_idle linux_host object checking).
  simpl. discriminate.
Defined.

(** C1 at work: whenever the feed answers, be it with no release, the
    running release or a different one, the check ends in [Idle] without a
    message.  The promise of [isLatestVersion] is tested, not its value. *)
Theorem doCheckForUpdates_fetched_release_ends_idle (env : Env) (context : any)
    (w : World) (response : Response) (update : option IUpdate) :
  type (state w) = TIdle ->
  request_result env buildUpdateFeedUrl = Return response ->
  asJson env response = Return update ->
  state (doCheckForUpdates env context w).2 = Idle Archive None.
Proof.
  intros Hty Hreq Hjson. destruct w as [st files h]. simpl in Hty.
  run. rewrite Hty. cbn [StateType_eqb]. run.
  rewrite Hreq, Hjson. by destruct update.
Qed.

Lemma doCheckForUpdates_fetched_release_ends_idle_witness :
  name release_9_9_9 <> codeServerVersion linux_host
  /\ (isLatestVersion linux_host (Some release_9_9_9) installed).1 = Return false
  /\ state (doCheckForUpdates linux_host object installed).2 = Idle Archive None.
Proof.
  split; [discriminate|]. split; [reflexivity|].
  apply (doCheckForUpdates_fetched_release_ends_idle
           linux_host object installed sample_response (Some release_9_9_9));
    reflexivity.
Defined.

(** ** Release names *)

(** The shape of every run of [buildReleaseName]: it returns, it leaves
    the state and the files alone, its only effect is the probe, and the
    platform segment follows the two tests on the probe's text. *)
Lemma buildReleaseName_run (env : Env) (release : jsstring) (w : World) :
  exists target,
    buildReleaseName env release w
    = (Return (lit "code-server" ++ release ++ lit "-" ++ target
               ++ lit "-" ++ arch_segment env),
       {| state := state w; fs := fs w;
          history := history w ++ probe_history env w |})
    /\ (platform env = lit "linux" /\ musl_detected env -> target = lit "alpine")
    /\ (~ (platform env = lit "linux" /\ musl_detected env) ->
        target = platform env).
Proof.
  destruct w as [st files h]. unfold musl_detected, probe_history. run.
  destruct (str_eqb (platform env) (lit "linux")) eqn:Hos.
  - apply str_eqb_eq in Hos.
    destruct (exec_result env (lit "ldd --version")) as [out err | error];
      cbn [probe_stderr probe_stdout].
    + destruct (indexOf err (lit "musl") =? -1)%Z eqn:Herr;
        [destruct (indexOf out (lit "musl") =? -1)%Z eqn:Hout|];
        cbn [negb orb]; eexists; (split; [reflexivity|]).
      * apply indexOf_missing in Herr, Hout. split; [|done].
        intros [_ [?|?]]; contradiction.
      * split; [done|]. apply indexOf_found in Hout. intros []; auto.
      * split; [done|]. apply indexOf_found in Herr. intros []; auto.
    + destruct (indexOf (message error) (lit "musl") =? -1)%Z eqn:Herr;
        cbn [negb orb]; eexists; (split; [reflexivity|]).
      * apply indexOf_missing in Herr. split; [|done].
        intros [_ [?|Hno]]; [contradiction|].
        apply indexOf_found in Hno. discriminate Hno.
      * split; [done|]. apply indexOf_found in Herr. intros []; auto.
  - apply str_eqb_neq in Hos. exists (platform env).
    rewrite app_nil_r. split; [reflexivity|].
    split; [by intros [? _] | done].
Qed.

(** C5, as stated, fails: on a darwin x64 host the name built for "1.2.3"
    has no hyphen between the product and the version. *)
Lemma buildReleaseName_no_hyphen_after_product :
  (buildReleaseName darwin_host (lit "1.2.3") installed).1
  = Return (lit "code-server1.2.3-darwin-x86_64")
  /\ (buildReleaseName darwin_host (lit "1.2.3") installed).1
     <> Return (lit "code-server" ++ lit "-" ++ lit "1.2.3" ++ lit "-"
                ++ platform darwin_host ++ lit "-" ++ lit "x86_64").
Proof. split; [reflexivity | discriminate]. Qed.

(** C5, amended: for every version string [v], [buildReleaseName v]
    produces "<product><version>-<platform>-<arch>", the product directly
    followed by the version; the platform segment is the host OS name,
    overridden to "alpine" exactly when the OS is linux and the probe's
    output or error text contains "musl"; the architecture segment is the
    runtime architecture with "x64" turned into "x86_64" and every other
    identifier unchanged. *)
Theorem buildReleaseName_format (env : Env) (release : jsstring) (w : World) :
  exists target w',
    buildReleaseName env release w
    = (Return (lit "code-server" ++ release ++ lit "-" ++ target
               ++ lit "-" ++ arch_segment env), w')
    /\ (platform env = lit "linux" /\ musl_detected env -> target = lit "alpine")
    /\ (~ (platform env = lit "linux" /\ musl_detected env) ->
        target = platform env)
    /\ (arch env = lit "x64" -> arch_segment env = lit "x86_64")
    /\ (arch env <> lit "x64" -> arch_segment env = arch env).
Proof.
  destruct (buildReleaseName_run env release w)
    as [target [Hrun [Hmusl Hplain]]].
  eexists target, _. repeat split; try done.
  - intros Harch. unfold arch_segment. by rewrite Harch.
  - intros Harch%str_eqb_neq. unfold arch_segment. by rewrite Harch.
Qed.

Lemma buildReleaseName_format_witness :
  (buildReleaseName
     (host "linux" "x64" "1.0.0" (ExecOk (lit "musl libc (x86_64)") []) None [])
     (lit "1.2.3") installed).1
  = Return (lit "code-server1.2.3-alpine-x86_64").
Proof.
  destruct (buildReleaseName_format
              (host "linux" "x64" "1.0.0"
                 (ExecOk (lit "musl libc (x86_64)") []) None [])
              (lit "1.2.3") installed)
    as [target [w' [Hrun [Hmusl [_ [Harch _]]]]]].
  rewrite Hrun, Hmusl, Harch; [reflexivity | reflexivity |].
  split; [reflexivity|]. right. by exists [], (lit " libc (x86_64)").
Defined.




(** ** The download pipeline *)

(** Decides the answers of the collaborators in program order. *)
Ltac oracle :=
  match goal with
  | |- context [mkdirp_error ?e ?p] => destruct (mkdirp_error e p) eqn:?
  | |- context [request_result ?e ?u] => destruct (request_result e u) eqn:?
  | |- context [writeFile_error ?e ?p] =>
      destruct (writeFile_error e p) eqn:?
  | |- context [extract_result ?e ?a ?b] =>
      destruct (extract_result e a b) eqn:?
  | |- context [unlink_error ?e ?p] => destruct (unlink_error e p) eqn:?
  | |- context [match ?m !! ?k with _ => _ end] => destruct (m !! k) eqn:?
  | |- context [move_error ?e ?a ?b] => destruct (move_error e a b) eqn:?
  | |- context [rimraf_error ?e ?p] => destruct (rimraf_error e p) eqn:?
  end; cbv beta iota zeta.

(** Runs [doDownloadUpdate] from a world given by its three fields, along
    every path the collaborators allow. *)
Ltac run_download env update st files h :=
  let target := fresh "target" in
  let Hrun := fresh "Hrun" in
  destruct (buildReleaseName_run env (version update)
              {| state := Updating update; fs := files;
                 history := h ++ [(EvSetState (Updating update), files)] |})
    as [target [Hrun _]];
  unfold doDownloadUpdate;
  cbv beta iota zeta delta [mbind M_bind setState state fs history];
  rewrite Hrun; clear Hrun;
  unfold probe_history;
  destruct (str_eqb (platform env) (lit "linux"));
  run; repeat oracle.

Section Pipeline.

Variable env : Env.

Lemma moves_guarded_tail (exe : jsstring) (prev : option Event)
    (x : Event * gmap jsstring Content) h :
  moves_guarded exe prev (x :: h) -> moves_guarded exe (Some x.1) h.
Proof. destruct x as [[] files]; simpl; tauto. Qed.

(** What [moves_guarded] says about any move found in the history. *)
Lemma moves_guarded_split (exe : jsstring) h :
  forall prev, moves_guarded exe prev h ->
  forall pre post src dst files,
    h = pre ++ (EvMove src dst, files) :: post ->
    dst = exe /\ files !! exe = None
    /\ (pre = [] /\ prev = Some (EvUnlink exe)
        \/ exists pre' before, pre = pre' ++ [(EvUnlink exe, before)]).
Proof.
  induction h as [|x h IH]; intros prev Hguard pre post src dst files Hsplit.
  - by destruct pre.
  - destruct pre as [|y pre]; simpl in Hsplit; injection Hsplit as -> ->.
    + simpl in Hguard. destruct Hguard as (-> & Hfree & -> & _). auto.
    + apply moves_guarded_tail in Hguard.
      destruct (IH _ Hguard pre post src dst files eq_refl)
        as (-> & Hfree & [[-> Hprev] | (pre' & before & ->)]).
      * repeat split; try done. right. exists [], y.2.
        destruct y as [e before]. simpl in Hprev. by injection Hprev as ->.
      * repeat split; try done. right. by exists (y :: pre'), before.
Qed.

Lemma doDownloadUpdate_moves_guarded (update : Update) (w : World) :
  exists h,
    history (doDownloadUpdate env update w).2 = history w ++ h
    /\ moves_guarded (argv0 env) None h.
Proof.
  destruct w as [st files h]. run_download env update st files h.
  all: repeat rewrite <- app_assoc; eexists; (split; [reflexivity|]).
  all: simpl; repeat split; try done; by rewrite lookup_delete_eq.
Qed.


(** C4: in every download attempt, whenever a move happens it is the move
    of the new binary onto the running executable's path, the effect right
    before it is the unlink of that path, and nothing is linked at that
    path when the move begins. *)
Theorem doDownloadUpdate_unlinks_before_move (update : Update) (w : World)
    (pre post : list (Event * gmap jsstring Content))
    (src dst : jsstring) (files : gmap jsstring Content) :
  history (doDownloadUpdate env update w).2
  = history w ++ pre ++ (EvMove src dst, files) :: post ->
  dst = argv0 env
  /\ files !! argv0 env = None
  /\ exists pre' before, pre = pre' ++ [(EvUnlink (argv0 env), before)].
Proof.
  intros Hsplit.
  destruct (doDownloadUpdate_moves_guarded update w) as [h [Hh Hguard]].
  rewrite Hh in Hsplit. apply app_inv_head in Hsplit.
  destruct (moves_guarded_split _ _ _ Hguard _ _ _ _ _ Hsplit)
    as (Hdst & Hfree & [[_ Hprev] | Hpre]); [discriminate Hprev | done].
Qed.

Lemma swept (p q : jsstring) (m : gmap jsstring Content) :
  under p q = true ->
  filter (fun kv => under p kv.1 = false) m !! q = None.
Proof.
  intros Hunder. apply map_lookup_filter_None. right.
  intros data _. simpl. by rewrite Hunder.
Qed.

Lemma still_swept (P : jsstring * Content -> Prop) `{!forall kv, Decision (P kv)}
    (q : jsstring) (m : gmap jsstring Content) :
  m !! q = None -> filter P m !! q = None.
Proof. intros Hq. apply map_lookup_filter_None. by left. Qed.

Lemma ends_with_cons {A} (x : A) (l tail : list A) :
  (exists mid, l = mid ++ tail) -> exists mid, x :: l = mid ++ tail.
Proof. intros [mid ->]. by exists (x :: mid). Qed.

Lemma ends_with_app {A} (l0 l tail : list A) :
  (exists mid, l = mid ++ tail) -> exists mid, l0 ++ l = l0 ++ mid ++ tail.
Proof. intros [mid ->]. by exists mid. Qed.

Ltac find_tail := first [ by exists [] | apply ends_with_cons; find_tail ].

(** C8: every download attempt, whatever succeeds or fails on the way,
    ends by calling [rimraf] on the archive path and on the extraction
    path; each [rimraf] that does not itself fail leaves nothing at or
    below its path. *)
Theorem doDownloadUpdate_always_cleans_up (update : Update) (w : World) :
  let archive := downloadPath env (version update) in
  let unpacked := extractPath env (version update) in
  let w' := (doDownloadUpdate env update w).2 in
  (exists mid,
      trace w' = trace w ++ mid ++ [EvRimraf archive; EvRimraf unpacked])
  /\ (forall p q, p = archive \/ p = unpacked ->
                 rimraf_error env p = None ->
                 under p q = true -> fs w' !! q = None).
Proof.
  destruct w as [st files h]. unfold trace.
  run_download env update st files h.
  all: split;
    [ rewrite !fmap_app, <- !app_assoc; apply ends_with_app; simpl; find_tail
    | intros p q [-> | ->] Hok Hunder ].
  all: try congruence.
  all: try (by apply swept).
  all: by apply still_swept, swept.
Qed.

(** C3 at work: once the archive has been downloaded and extracted, the
    running executable is unlinked, whether or not the archive held a
    binary: the promise of [pfs.exists] is tested, not its value, so the
    "no binary" error is never raised. *)
Theorem doDownloadUpdate_unlinks_without_binary (update : Update) (w : World)
    (response : Response) (unpacked : list (jsstring * Content)) :
  mkdirp_error env (tmpdir env) = None ->
  (forall url, request_result env url = Return response) ->
  writeFile_error env (downloadPath env (version update)) = None ->
  extract_result env (downloadPath env (version update))
    (extractPath env (version update)) = Return unpacked ->
  exists h before,
    history (doDownloadUpdate env update w).2 = history w ++ h
    /\ (EvUnlink (argv0 env), before) ∈ h.
Proof.
  intros Hmkdirp Hrequest Hwrite Hextract. destruct w as [st files h].
  run_download env update st files h.
  all: try congruence.
  all: try match goal with
           | H : request_result _ _ = Throw _ |- _ =>
               rewrite Hrequest in H; discriminate H
           end.
  all: rewrite <- !app_assoc; eexists _, _; (split; [reflexivity|]).
  all: simpl; repeat first [ apply list_elem_of_here | apply list_elem_of_further ].
Qed.

End Pipeline.

(** A history whose [k]-th effect is a move splits around that move. *)
Lemma move_at (past h : list (Event * gmap jsstring Content)) (k : nat)
    (src dst : jsstring) :
  past = [] ->
  h.*1 !! k = Some (EvMove src dst) ->
  exists files,
    h = past ++ take k h ++ (EvMove src dst, files) :: drop (S k) h.
Proof.
  intros ->. rewrite list_lookup_fmap.
  destruct (h !! k) as [[ev files]|] eqn:Hlookup; [|done].
  intros [= ->]. exists files. symmetry. by apply take_drop_middle.
Qed.

Lemma doDownloadUpdate_unlinks_before_move_witness :
  exists pre post src dst files,
    history (doDownloadUpdate linux_host_good_archive update_9_9_9 installed).2
    = history installed ++ pre ++ (EvMove src dst, files) :: post
    /\ dst = argv0 linux_host_good_archive
    /\ files !! argv0 linux_host_good_archive = None.
Proof.
  destruct (move_at (history installed)
              (history
                 (doDownloadUpdate linux_host_good_archive update_9_9_9
                    installed).2)
              7
              (newBinaryPath linux_host_good_archive (lit "9.9.9")
                 (lit "code-server9.9.9-linux-x86_64"))
              (argv0 linux_host_good_archive) eq_refl eq_refl)
    as [files Hsplit].
  eexists _, _, _, _, files. split; [exact Hsplit|].
  destruct (doDownloadUpdate_unlinks_before_move
              linux_host_good_archive update_9_9_9 installed
              _ _ _ _ _ Hsplit) as (Hdst & Hfree & _).
  by split.
Defined.

Lemma doDownloadUpdate_always_cleans_up_witness :
  fs (doDownloadUpdate linux_host_good_archive update_9_9_9 installed).2
    !! lit "/tmp/code-server/9.9.9-archive" = None.
Proof.
  destruct (doDownloadUpdate_always_cleans_up
              linux_host_good_archive update_9_9_9 installed) as [_ Hgone].
  apply (Hgone (downloadPath linux_host_good_archive (lit "9.9.9")));
    [by left | reflexivity | reflexivity].
Defined.

Lemma doDownloadUpdate_unlinks_without_binary_witness :
  let w' := (doDownloadUpdate linux_host update_9_9_9 installed).2 in
  (exists h before,
      history w' = history installed ++ h
      /\ (EvUnlink (argv0 linux_host), before) ∈ h)
  /\ fs w' !! argv0 linux_host = None
  /\ state w' = Idle Archive (Some (message ENOENT)).
Proof.
  split; [|split; reflexivity].
  apply (doDownloadUpdate_unlinks_without_binary
           linux_host update_9_9_9 installed sample_response []);
    reflexivity.
Defined.

(** The effects of an attempt whose archive holds no binary, in order: the
    running executable is unlinked, the move fails, the error handler
    reports the failed move, both temporary paths are swept. *)
Example doDownloadUpdate_missing_binary_trace :
  trace (doDownloadUpdate linux_host update_9_9_9 installed).2
  = [ EvSetState (Updating update_9_9_9);
      EvExec (lit "ldd --version");
      EvMkdirp (lit "/tmp/code-server");
      EvRequest (lit "https://github.com/cdr/code-server/releases/download/9.9.9/code-server9.9.9-linux-x86_64.tar.gz");
      EvWriteFile (lit "/tmp/code-server/9.9.9-archive");
      EvExtract (lit "/tmp/code-server/9.9.9-archive") (lit "/tmp/code-server/9.9.9");
      EvUnlink (lit "/usr/local/bin/code-server");
      EvMove (lit "/tmp/code-server/9.9.9/code-server9.9.9-linux-x86_64/code-server")
        (lit "/usr/local/bin/code-server");
      EvLogError ENOENT;
      EvSetState (Idle Archive (Some (lit "ENOENT: no such file or directory")));
      EvRimraf (lit "/tmp/code-server/9.9.9-archive");
      EvRimraf (lit "/tmp/code-server/9.9.9") ].
Proof. reflexivity. Qed.

(** The effects of an attempt with a well-formed archive: the new binary
    ends up at the running executable's path and the state is [Ready]. *)
Example doDownloadUpdate_good_archive :
  let w' := (doDownloadUpdate linux_host_good_archive update_9_9_9 installed).2 in
  state w' = Ready update_9_9_9
  /\ fs w' !! lit "/usr/local/bin/code-server" = Some [127; 69; 76; 70; 2]
  /\ fs w' !! lit "/tmp/code-server/9.9.9-archive" = None
  /\ fs w' !! lit "/tmp/code-server/9.9.9/code-server9.9.9-linux-x86_64/code-server"
     = None.
Proof. repeat split; reflexivity. Qed.

(** ** Paths *)

Section Paths.

Import Path.

Lemma segments_nonempty (p : jsstring) : segments p <> [].
Proof.
  destruct p as [|c p]; simpl; [done|].
  destruct (c =? SLASH); [done|]. by destruct (segments p).
Qed.

Lemma segments_free (s : jsstring) : slash_free s -> segments s = [s].
Proof.
  induction 1 as [|c s Hc _ IH]; simpl; [done|].
  apply N.eqb_neq in Hc. by rewrite Hc, IH.
Qed.

Lemma segments_app_slash (a b : jsstring) :
  segments (a ++ SLASH :: b) = segments a ++ segments b.
Proof.
  induction a as [|c a IH]; simpl; [done|].
  destruct (c =? SLASH); [by rewrite IH|].
  rewrite IH. pose proof (segments_nonempty a).
  by destruct (segments a).
Qed.

Lemma segments_snoc (p suffix : jsstring) :
  slash_free suffix ->
  exists init s,
    segments p = init ++ [s] /\ segments (p ++ suffix) = init ++ [s ++ suffix].
Proof.
  intros Hfree. induction p as [|c p (init & s & Hp & Hps)]; simpl.
  - exists [], []. rewrite segments_free by done. by split.
  - rewrite Hp, Hps. destruct (c =? SLASH).
    + by exists ([] :: init), s; split.
    + destruct init as [|i init]; simpl.
      * by exists [], (c :: s); split.
      * by exists ((c :: i) :: init), s; split.
Qed.

Lemma segments_slash_free (p : jsstring) : Forall slash_free (segments p).
Proof.
  induction p as [|c p IH]; simpl.
  - by repeat constructor.
  - destruct (c =? SLASH) eqn:Hc; [constructor; [constructor | done]|].
    apply N.eqb_neq in Hc.
    destruct (segments p) as [|seg segs]; [by repeat constructor|].
    inversion_clear IH. constructor; [by constructor | done].
Qed.

Lemma glue_segments (l : list jsstring) :
  l <> [] -> Forall slash_free l -> segments (glue l) = l.
Proof.
  induction l as [|a l IH]; [done|]. intros _ Hfree.
  inversion_clear Hfree as [|? ? Ha Hl].
  destruct l as [|b l]; [by apply segments_free|].
  change (glue (a :: b :: l)) with (a ++ SLASH :: glue (b :: l)).
  by rewrite segments_app_slash, segments_free, IH.
Qed.

Lemma glue_nonempty (l : list jsstring) :
  l <> [] -> Forall (fun s => s <> []) l -> glue l <> [].
Proof.
  destruct l as [|a [|b l]]; [done|..]; intros _ Hl; inversion_clear Hl.
  - done.
  - simpl. by destruct a.
Qed.


Lemma tidy_dotdot : dotdot <> [] /\ slash_free dotdot.
Proof. split; [done|]. by repeat constructor. Qed.

Lemma norm_step_tidy (allow : bool) (stack : list jsstring) (seg : jsstring) :
  tidy stack -> slash_free seg -> tidy (norm_step allow stack seg).
Proof.
  intros Hstack Hseg. unfold norm_step.
  destruct (str_eqb seg []) eqn:Hempty; [done|].
  destruct (str_eqb seg [DOT]); [done|]. simpl.
  destruct (str_eqb seg dotdot).
  - destruct stack as [|top rest].
    + destruct allow; [|done]. constructor; [apply tidy_dotdot | done].
    + destruct (str_eqb top dotdot); [|by inversion Hstack].
      destruct allow; [|done]. constructor; [apply tidy_dotdot | done].
  - apply str_eqb_neq in Hempty. by constructor.
Qed.

Lemma norm_fold_tidy (allow : bool) (segs : list jsstring) :
  forall stack, tidy stack -> Forall slash_free segs ->
                tidy (fold_left (norm_step allow) segs stack).
Proof.
  induction segs as [|seg segs IH]; intros stack Hstack Hsegs; [done|].
  inversion_clear Hsegs. simpl. apply IH; [|done].
  by apply norm_step_tidy.
Qed.

Lemma norm_stack_tidy (allow : bool) (p : jsstring) : tidy (norm_stack allow p).
Proof.
  apply norm_fold_tidy; [constructor | apply segments_slash_free].
Qed.

(** A kept segment on top of an unchanged stack can only be the segment
    that was just read. *)
Lemma norm_step_push (allow : bool) (stack : list jsstring) (seg x : jsstring) :
  norm_step allow stack seg = x :: stack -> seg = x.
Proof.
  unfold norm_step. intros Hstep.
  assert (forall l : list jsstring, l <> x :: l) as Hgrow.
  { intros l Hl. apply (f_equal length) in Hl. simpl in Hl. lia. }
  destruct (str_eqb seg [] || str_eqb seg [DOT]); [by apply Hgrow in Hstep|].
  destruct (str_eqb seg dotdot) eqn:Hdots; [|by injection Hstep].
  apply str_eqb_eq in Hdots. subst seg.
  destruct stack as [|top rest].
  - destruct allow; [by injection Hstep | done].
  - destruct (str_eqb top dotdot).
    + destruct allow; [by injection Hstep | by apply Hgrow in Hstep].
    + apply (f_equal length) in Hstep. simpl in Hstep. lia.
Qed.

(** A segment of three code units or more is kept. *)
Lemma norm_step_keep (allow : bool) (stack : list jsstring) (seg : jsstring) :
  (3 <= length seg)%nat -> norm_step allow stack seg = seg :: stack.
Proof.
  intros Hlong. unfold norm_step, dotdot.
  by destruct seg as [|a [|b [|c seg]]]; simpl in Hlong; try lia;
    unfold str_eqb; rewrite ?andb_false_r.
Qed.

(** Appending a separator-free suffix of three code units or more to a
    path only changes its last segment, which is then kept. *)
Lemma norm_stack_suffix (allow : bool) (p suffix : jsstring) :
  slash_free suffix -> (3 <= length suffix)%nat ->
  exists stack s,
    norm_stack allow (p ++ suffix) = (s ++ suffix) :: stack
    /\ norm_stack allow p = norm_step allow stack s.
Proof.
  intros Hfree Hlong.
  destruct (segments_snoc p suffix Hfree) as (init & s & Hp & Hps).
  exists (fold_left (norm_step allow) init []), s.
  unfold norm_stack. rewrite Hp, Hps, !fold_left_app. simpl.
  split; [|done]. apply norm_step_keep. rewrite length_app. lia.
Qed.

Lemma last_is_slash_suffix (p suffix : jsstring) :
  slash_free suffix -> suffix <> [] -> last_is_slash (p ++ suffix) = false.
Proof.
  intros Hfree Hsome. unfold last_is_slash. rewrite last_app.
  destruct (last suffix) as [c|] eqn:Hlast; [|by apply last_None in Hlast].
  apply last_Some_elem_of in Hlast.
  apply N.eqb_neq. unfold slash_free in Hfree. rewrite Forall_forall in Hfree.
  by apply Hfree.
Qed.

(** The segments of a normalized path whose stack is not empty. *)
Lemma segments_normalize (p : jsstring) :
  let stack := norm_stack (negb (first_is_slash p)) p in
  stack <> [] ->
  segments (normalize p)
  = root_segment p ++ rev stack ++ (if last_is_slash p then [[]] else []).
Proof.
  intros stack Hstack. unfold normalize, normalizeString. fold stack.
  pose proof (norm_stack_tidy (negb (first_is_slash p)) p) as Htidy.
  fold stack in Htidy.
  assert (rev stack <> []) as Hrev.
  { intros Hrev. apply (f_equal (@rev _)) in Hrev.
    by rewrite rev_involutive in Hrev. }
  assert (Forall slash_free (rev stack)) as Hfree.
  { apply List.Forall_rev. eapply Forall_impl; [exact Htidy|]. by intros s []. }
  assert (glue (rev stack) <> []) as Hglue.
  { apply glue_nonempty; [done|].
    apply List.Forall_rev. eapply Forall_impl; [exact Htidy|]. by intros s []. }
  destruct p as [|c p]; [done|].
  destruct (glue (rev stack)) as [|g q] eqn:Hq; [done|]. rewrite <- Hq.
  unfold root_segment.
  destruct (first_is_slash (c :: p)), (last_is_slash (c :: p)); simpl.
  - change (glue (rev stack) ++ [SLASH]) with (glue (rev stack) ++ SLASH :: []).
    by rewrite segments_app_slash, glue_segments.
  - by rewrite !app_nil_r, glue_segments.
  - change (glue (rev stack) ++ [SLASH]) with (glue (rev stack) ++ SLASH :: []).
    by rewrite segments_app_slash, glue_segments.
  - by rewrite !app_nil_r, glue_segments.
Qed.

(** The last segment of a normalized path whose stack is empty. *)
Lemma segments_normalize_empty (p : jsstring) :
  norm_stack (negb (first_is_slash p)) p = [] ->
  last (segments (normalize p)) = Some []
  \/ last (segments (normalize p)) = Some [DOT].
Proof.
  intros Hstack. unfold normalize, normalizeString. rewrite Hstack. simpl.
  destruct p as [|c p]; [by right|].
  destruct (first_is_slash (c :: p)), (last_is_slash (c :: p)); auto.
Qed.


Lemma segments_normalize_suffix (p suffix : jsstring) :
  slash_free suffix -> (3 <= length suffix)%nat ->
  let allow := negb (first_is_slash (p ++ suffix)) in
  exists stack s,
    norm_stack allow p = norm_step allow stack s
    /\ segments (normalize (p ++ suffix))
       = root_segment (p ++ suffix) ++ rev stack ++ [s ++ suffix].
Proof.
  intros Hfree Hlong allow.
  destruct (norm_stack_suffix allow p suffix Hfree Hlong)
    as (stack & s & Hsuffix & Hp).
  exists stack, s. split; [done|].
  rewrite segments_normalize; fold allow; rewrite Hsuffix; [|done].
  rewrite last_is_slash_suffix, app_nil_r; [done..|].
  intros ->. simpl in Hlong. lia.
Qed.

(** A path and the path obtained by appending a suffix to its last segment
    never normalize to the same string. *)
Lemma normalize_suffix_neq (p q suffix : jsstring) :
  slash_free suffix -> (3 <= length suffix)%nat ->
  first_is_slash q = first_is_slash (p ++ suffix) ->
  norm_stack (negb (first_is_slash q)) q
  = norm_stack (negb (first_is_slash q)) p ->
  normalize (p ++ suffix) <> normalize q.
Proof.
  intros Hfree Hlong Hroot Hstack Heq. apply (f_equal segments) in Heq.
  destruct (segments_normalize_suffix p suffix Hfree Hlong)
    as (stack & s & Hp & Hsegs).
  rewrite Hsegs in Heq. clear Hsegs. rewrite <- Hroot in Hp.
  assert (forall t : jsstring, (length t <= 2)%nat -> s ++ suffix <> t) as Hne.
  { intros t Ht Hst. apply (f_equal length) in Hst.
    rewrite length_app in Hst. lia. }
  destruct (norm_stack (negb (first_is_slash q)) q) as [|top rest] eqn:Hq.
  - assert (last (segments (normalize q)) = Some (s ++ suffix)) as Hlast.
    { by rewrite <- Heq, !app_assoc, last_snoc. }
    destruct (segments_normalize_empty q Hq) as [Hq' | Hq'];
      rewrite Hlast in Hq'; injection Hq' as Hq';
      (eapply Hne; [|exact Hq']); simpl; lia.
  - rewrite segments_normalize in Heq by (by rewrite Hq).
    rewrite Hq in Heq. unfold root_segment in Heq. rewrite Hroot in Heq.
    apply app_inv_head in Heq. simpl in Heq.
    destruct (last_is_slash q).
    + apply app_inj_tail in Heq as [_ Heq].
      eapply Hne; [|exact Heq]. simpl; lia.
    + rewrite app_nil_r in Heq. apply app_inj_tail in Heq as [Hrest <-].
      apply (f_equal (@rev _)) in Hrest. rewrite !rev_involutive in Hrest.
      subst rest. rewrite <- Hstack in Hp. symmetry in Hp.
      apply norm_step_push in Hp. apply (f_equal length) in Hp.
      rewrite length_app in Hp. lia.
Qed.

Lemma norm_stack_trailing_slash (allow : bool) (p : jsstring) :
  norm_stack allow (p ++ [SLASH]) = norm_stack allow p.
Proof.
  unfold norm_stack.
  change (p ++ [SLASH]) with (p ++ SLASH :: []).
  by rewrite segments_app_slash, fold_left_app.
Qed.

Lemma archive_suffix :
  slash_free (lit "-archive") /\ (3 <= length (lit "-archive"))%nat.
Proof. split; [by repeat constructor | simpl; lia]. Qed.

(** [path.join] of a directory and a name. *)
Lemma join_two (dir x : jsstring) :
  x <> [] ->
  join [dir; x]
  = normalize (match dir with [] => x | _ => dir ++ SLASH :: x end).
Proof. intros Hx. unfold join. by destruct dir, x. Qed.

Lemma join_two_empty (dir : jsstring) : join [dir; []] = normalize dir.
Proof. unfold join. by destruct dir. Qed.

(** C10: for every version string and every temporary root, the archive
    download path and the extraction path of an attempt are different
    paths. *)
Theorem downloadPath_neq_extractPath (env : Env) (release : jsstring) :
  downloadPath env release <> extractPath env release.
Proof.
  destruct archive_suffix as [Hfree Hlong].
  unfold downloadPath, extractPath.
  rewrite join_two by (intros [_ Hnil]%app_eq_nil; discriminate Hnil).
  destruct release as [|d v].
  - rewrite join_two_empty. destruct (tmpdir env) as [|c t].
    + by apply (normalize_suffix_neq [] [] (lit "-archive")).
    + replace (normalize _)
        with (normalize (((c :: t) ++ [SLASH]) ++ lit "-archive"))
        by (by rewrite <- app_assoc).
      apply (normalize_suffix_neq _ (c :: t) (lit "-archive")); try done.
      by rewrite norm_stack_trailing_slash.
  - rewrite join_two by done. destruct (tmpdir env) as [|c t].
    + by apply (normalize_suffix_neq (d :: v) (d :: v) (lit "-archive")).
    + replace (normalize _)
        with (normalize (((c :: t) ++ SLASH :: d :: v) ++ lit "-archive"))
        by (by rewrite <- app_assoc).
      by apply (normalize_suffix_neq _ ((c :: t) ++ SLASH :: d :: v)
                  (lit "-archive")).
Qed.

End Paths.

(** ** More on version comparison *)

(** The answer for a given candidate, in closed form. *)
Lemma isLatestVersion_value (env : Env) (latest : IUpdate) (w : World) :
  isLatestVersion env (Some latest) w
  = (Return (negb (isNaN (parseInt (name latest)))
             && negb (isNaN (parseInt (codeServerVersion env)))
             && num_le (parseInt (codeServerVersion env))
                  (parseInt (name latest))
             && str_eqb (name latest) (codeServerVersion env)), w).
Proof. reflexivity. Qed.

(** X1: for a given candidate, [isLatestVersion] answers true exactly when
    the candidate's name is the running version, character for character,
    and its leading-integer parse succeeds; the major numbers never decide
    on their own. *)
Theorem isLatestVersion_true_iff (env : Env) (latest : IUpdate) (w : World) :
  isLatestVersion env (Some latest) w = (Return true, w)
  <-> name latest = codeServerVersion env
      /\ isNaN (parseInt (name latest)) = false.
Proof.
  rewrite isLatestVersion_value. split.
  - intros [= Htrue]. apply andb_prop in Htrue as [Htrue Heq].
    apply andb_prop in Htrue as [Htrue _].
    apply andb_prop in Htrue as [Hparse _].
    apply str_eqb_eq in Heq. apply negb_true_iff in Hparse. done.
  - intros [<- Hparse]. rewrite Hparse, str_eqb_refl.
    destruct (parseInt (name latest)) as [|z]; [discriminate Hparse|].
    simpl. by rewrite Z.leb_refl.
Qed.

(** X2: called without a candidate, [isLatestVersion] asks the feed once;
    when the feed holds no release it answers true. *)
Theorem isLatestVersion_empty_feed (env : Env) (w : World) (data : Response) :
  request_result env buildUpdateFeedUrl = Return data ->
  asJson env data = Return None ->
  isLatestVersion env None w
  = (Return true,
     {| state := state w; fs := fs w;
        history := history w ++ [(EvRequest buildUpdateFeedUrl, fs w)] |}).
Proof.
  intros Hrequest Hjson. destruct w as [st files h]. run.
  by rewrite Hrequest, Hjson.
Qed.

Lemma isLatestVersion_empty_feed_witness :
  (isLatestVersion (host "linux" "x64" "1.0.0" glibc_probe None []) None
     installed).1 = Return true.
Proof.
  by rewrite (isLatestVersion_empty_feed
                (host "linux" "x64" "1.0.0" glibc_probe None [])
                installed sample_response eq_refl eq_refl).
Defined.

(** X3: called without a candidate, [isLatestVersion] rejects with the
    error of the feed when the request fails or its body does not parse. *)
Theorem isLatestVersion_feed_error (env : Env) (w : World) (error : Error) :
  request_result env buildUpdateFeedUrl = Throw error
  \/ (exists data, request_result env buildUpdateFeedUrl = Return data
                   /\ asJson env data = Throw error) ->
  (isLatestVersion env None w).1 = Throw error.
Proof.
  intros [Hrequest | (data & Hrequest & Hjson)]; destruct w as [st files h];
    run; by rewrite Hrequest, ?Hjson.
Qed.

Lemma isLatestVersion_feed_error_witness :
  (isLatestVersion (offline linux_host ENOENT) None installed).1 = Throw ENOENT.
Proof.
  apply (isLatestVersion_feed_error (offline linux_host ENOENT) installed ENOENT).
  by left.
Defined.

(** ** More on checking for updates *)

(** X4: a check started from [Idle] always settles: it never rejects, it
    never leaves the state in [CheckingForUpdates] (the state is [Idle]
    again when it returns) and it never touches the files. *)
Theorem doCheckForUpdates_settles (env : Env) (context : any) (w : World) :
  type (state w) = TIdle ->
  (doCheckForUpdates env context w).1 = Return tt
  /\ type (state (doCheckForUpdates env context w).2) = TIdle
  /\ fs (doCheckForUpdates env context w).2 = fs w.
Proof.
  intros Hty. destruct w as [st files h]. simpl in Hty.
  run. rewrite Hty. cbn [StateType_eqb]. run.
  destruct (request_result env buildUpdateFeedUrl) as [data|e]; [|done].
  destruct (asJson env data) as [[u|]|e]; done.
Qed.

Lemma doCheckForUpdates_settles_witness :
  (doCheckForUpdates (offline linux_host ENOENT) undefined installed).1
  = Return tt
  /\ type (state (doCheckForUpdates (offline linux_host ENOENT) undefined
                    installed).2) = TIdle.
Proof.
  destruct (doCheckForUpdates_settles (offline linux_host ENOENT) undefined
              installed eq_refl) as (Hr & Hty & _).
  by split.
Defined.

(** X5: a check started from [Idle] makes exactly one request, to the
    feed URL, right after entering [CheckingForUpdates]. *)
Theorem doCheckForUpdates_one_request (env : Env) (context : any) (w : World) :
  type (state w) = TIdle ->
  exists rest,
    trace (doCheckForUpdates env context w).2
    = trace w ++ [EvSetState (CheckingForUpdates context);
                  EvRequest buildUpdateFeedUrl] ++ rest
    /\ forall url, EvRequest url ∉ rest.
Proof.
  intros Hty. destruct w as [st files h]. simpl in Hty. unfold trace.
  run. rewrite Hty. cbn [StateType_eqb]. run.
  destruct (request_result env buildUpdateFeedUrl) as [data|e];
    [destruct (asJson env data) as [[u|]|e]|];
    rewrite !fmap_app, <- !app_assoc; simpl; eexists;
    (split; [reflexivity|]); intros url Hin;
    repeat (apply elem_of_cons in Hin as [Hin|Hin]; [discriminate Hin|]);
    by apply elem_of_nil in Hin.
Qed.

Lemma doCheckForUpdates_one_request_witness :
  exists rest,
    trace (doCheckForUpdates linux_host object installed).2
    = trace installed ++ [EvSetState (CheckingForUpdates object);
                          EvRequest buildUpdateFeedUrl] ++ rest
    /\ EvRequest buildUpdateFeedUrl ∉ rest.
Proof.
  destruct (doCheckForUpdates_one_request linux_host object installed eq_refl)
    as (rest & Htrace & Hnone).
  exists rest. by split.
Defined.

(** X6: when the feed request fails, or its body does not parse, during a
    check started from [Idle], the error is logged and the state returns
    to [Idle]; the state carries the error's message exactly when the
    check was given a truthy context. *)
Theorem doCheckForUpdates_feed_error (env : Env) (context : any) (w : World)
    (error : Error) :
  type (state w) = TIdle ->
  request_result env buildUpdateFeedUrl = Throw error
  \/ (exists data, request_result env buildUpdateFeedUrl = Return data
                   /\ asJson env data = Throw error) ->
  let w' := (doCheckForUpdates env context w).2 in
  state w'
  = Idle Archive (if truthy context then Some (notification error) else None)
  /\ EvLogError error ∈ trace w'.
Proof.
  intros Hty Hfeed. destruct w as [st files h]. simpl in Hty. unfold trace.
  run. rewrite Hty. cbn [StateType_eqb]. run.
  destruct Hfeed as [Hrequest | (data & Hrequest & Hjson)];
    rewrite Hrequest, ?Hjson; (split; [by destruct (any_truthy context)|]);
    rewrite !fmap_app; simpl; rewrite !elem_of_app;
    left; right; apply list_elem_of_here.
Qed.

Lemma doCheckForUpdates_feed_error_witness :
  state (doCheckForUpdates (offline linux_host ENOENT) undefined installed).2
  = Idle Archive None
  /\ state (doCheckForUpdates (offline linux_host ENOENT) object installed).2
     = Idle Archive (Some (message ENOENT)).
Proof.
  split.
  - by destruct (doCheckForUpdates_feed_error (offline linux_host ENOENT)
                   undefined installed ENOENT eq_refl (or_introl eq_refl))
      as [-> _].
  - by destruct (doCheckForUpdates_feed_error (offline linux_host ENOENT)
                   object installed ENOENT eq_refl (or_introl eq_refl))
      as [-> _].
Defined.

(** ** More on the error handler *)

(** X7: when asked to notify, [onRequestError] reports the error's own
    message, or the error's string form when the message is empty; the
    reported text is empty only for an error with neither name nor
    message. *)
Theorem onRequestError_notification (error : Error) (w : World) :
  state (onRequestError error true w).2
  = Idle Archive (Some (notification error))
  /\ (notification error = [] <-> err_name error = [] /\ message error = []).
Proof.
  split; [by destruct w|]. unfold notification, toString.
  destruct error as [[|n ns] [|m ms]]; simpl; split; try done;
    by intros [? ?].
Qed.

(** ** More on release names *)

(** [buildReleaseName] in closed form: the name depends on the host only,
    never on the state of the service or the files. *)
Lemma buildReleaseName_value (env : Env) (release : jsstring) (w : World) :
  buildReleaseName env release w
  = (Return (release_name env release),
     {| state := state w; fs := fs w;
        history := history w ++ probe_history env w |}).
Proof.
  destruct w as [st files h].
  unfold release_name, target_segment, probe_history. run.
  destruct (str_eqb (platform env) (lit "linux")); [|by rewrite app_nil_r].
  destruct (exec_result env (lit "ldd --version")) as [out err | error];
    cbn [probe_stderr probe_stdout andb].
  - by destruct (indexOf err (lit "musl") =? -1)%Z,
                (indexOf out (lit "musl") =? -1)%Z.
  - by destruct (indexOf (message error) (lit "musl") =? -1)%Z.
Qed.

(** X8: on one host, two versions get the same release name only if they
    are the same version: the asset that is downloaded identifies the
    release. *)
Theorem buildReleaseName_injective (env : Env) (v1 v2 : jsstring)
    (w1 w2 : World) :
  (buildReleaseName env v1 w1).1 = (buildReleaseName env v2 w2).1 ->
  v1 = v2.
Proof.
  rewrite !buildReleaseName_value. cbn [fst]. intros Hreturn.
  assert (release_name env v1 = release_name env v2) as Hname by congruence.
  unfold release_name in Hname.
  apply app_inv_head in Hname. by apply app_inv_tail in Hname.
Qed.

Lemma buildReleaseName_injective_witness :
  lit "9.9.9" = version update_9_9_9.
Proof.
  apply (buildReleaseName_injective linux_host _ _ installed checking).
  reflexivity.
Defined.

(** X9: the libc probe runs on linux only: on any other host
    [buildReleaseName] starts no subprocess, leaves the world as it is and
    uses the OS name unchanged. *)
Theorem buildReleaseName_no_probe (env : Env) (release : jsstring) (w : World) :
  platform env <> lit "linux" ->
  buildReleaseName env release w
  = (Return (lit "code-server" ++ release ++ lit "-" ++ platform env
             ++ lit "-" ++ arch_segment env), w).
Proof.
  intros Hos%str_eqb_neq. rewrite buildReleaseName_value.
  unfold release_name, target_segment, probe_history. rewrite Hos.
  cbn [andb]. rewrite app_nil_r. by destruct w.
Qed.

Lemma buildReleaseName_no_probe_witness :
  buildReleaseName darwin_host (lit "1.2.3") installed
  = (Return (lit "code-server1.2.3-darwin-x86_64"), installed).
Proof.
  by rewrite (buildReleaseName_no_probe darwin_host (lit "1.2.3") installed).
Defined.

(** X10: on linux, [buildReleaseName] runs the probe exactly once, as the
    command "ldd --version", and does nothing else to the world. *)
Theorem buildReleaseName_probes_once (env : Env) (release : jsstring)
    (w : World) :
  platform env = lit "linux" ->
  (buildReleaseName env release w).2
  = {| state := state w; fs := fs w;
       history := history w ++ [(EvExec (lit "ldd --version"), fs w)] |}.
Proof.
  intros Hos. rewrite buildReleaseName_value. unfold probe_history.
  by rewrite Hos.
Qed.

Lemma buildReleaseName_probes_once_witness :
  trace (buildReleaseName alpine_host (lit "1.2.3") installed).2
  = [EvExec (lit "ldd --version")].
Proof.
  by rewrite (buildReleaseName_probes_once alpine_host (lit "1.2.3") installed).
Defined.

(** ** Versions that start with a digit *)

Lemma parseInt_nonzero_digit (c : N) (s : jsstring) :
  nonzero_digit c -> isNaN (parseInt (c :: s)) = false.
Proof.
  intros [Hlow Hhigh].
  assert (c = 49 \/ c = 50 \/ c = 51 \/ c = 52 \/ c = 53 \/ c = 54
          \/ c = 55 \/ c = 56 \/ c = 57) as Hc by lia.
  unfold parseInt.
  destruct Hc as [->|[->|[->|[->|[->|[->|[->|[->| ->]]]]]]]]; reflexivity.
Qed.

(** X11: when the running version starts with a digit from 1 to 9 (as
    release versions do), [isLatestVersion] is plain string equality: it
    answers true for a candidate exactly when the candidate's name is the
    running version. *)
Theorem isLatestVersion_numbered_versions (env : Env) (latest : IUpdate)
    (w : World) (c : N) (rest : jsstring) :
  codeServerVersion env = c :: rest ->
  nonzero_digit c ->
  isLatestVersion env (Some latest) w
  = (Return (str_eqb (name latest) (codeServerVersion env)), w).
Proof.
  intros Hversion Hdigit. rewrite isLatestVersion_value.
  destruct (str_eqb (name latest) (codeServerVersion env)) eqn:Heq;
    [|by rewrite andb_false_r].
  apply str_eqb_eq in Heq. rewrite Heq, Hversion.
  pose proof (parseInt_nonzero_digit c rest Hdigit) as Hparse.
  destruct (parseInt (c :: rest)) as [|z]; [discriminate Hparse|].
  simpl. by rewrite Z.leb_refl.
Qed.

Lemma isLatestVersion_numbered_versions_witness :
  isLatestVersion linux_host (Some release_9_9_9) installed
  = (Return false, installed).
Proof.
  rewrite (isLatestVersion_numbered_versions linux_host release_9_9_9
             installed 49 (lit ".0.0"));
    [reflexivity | reflexivity | unfold nonzero_digit; lia].
Defined.

(** ** More on the download pipeline *)

(** Runs [doDownloadUpdate] up to the first answer of a collaborator, with
    the release name in closed form. *)
Ltac download_start env update files h :=
  unfold doDownloadUpdate;
  cbv beta iota zeta delta [mbind M_bind setState state fs history];
  rewrite (buildReleaseName_value env (version update)
             {| state := Updating update; fs := files;
                history := h ++ [(EvSetState (Updating update), files)] |});
  unfold probe_history;
  cbv beta iota zeta delta [state fs history];
  destruct (str_eqb (platform env) (lit "linux"));
  run.

(** X12: a download attempt rejects only when the final cleanup fails, and
    then with the error of a failed cleanup; whatever goes wrong before is
    reported through the state, never thrown. *)
Theorem doDownloadUpdate_rejects_on_cleanup_only (env : Env) (update : Update)
    (w : World) :
  let archive := downloadPath env (version update) in
  let dir := extractPath env (version update) in
  rimraf_error env archive = None /\ rimraf_error env dir = None
  /\ (doDownloadUpdate env update w).1 = Return tt
  \/ exists error,
       (doDownloadUpdate env update w).1 = Throw error
       /\ (rimraf_error env archive = Some error
           \/ rimraf_error env dir = Some error).
Proof.
  intros archive dir. destruct w as [st files h].
  download_start env update files h.
  all: fold archive dir; repeat oracle.
  all: first [ by left | right; eexists; split; [reflexivity|]; tauto ].
Qed.


(** Tries the pipeline prefix of length [k] with either report. *)
Ltac shape k update :=
  exists k;
  first
    [ exists [EvSetState (Ready update)];
      split; [reflexivity|]; split; [lia|]; by left
    | match goal with
      | |- context [EvLogError ?e] =>
          exists [EvLogError e;
                  EvSetState (Idle Archive (Some (notification e)))];
          split; [reflexivity|]; split; [lia|]; right; by eexists
      end ].

(** X14: the effects of every download attempt, in order: the state
    becomes [Updating], the probe runs (on linux), then comes a non-empty
    prefix of the pipeline (mkdirp, request, write, extract, unlink, move),
    then either [Ready] after the whole pipeline or an error report, and
    last the two cleanups.  No step runs before the steps ahead of it, and
    none runs after a failure. *)
Theorem doDownloadUpdate_trace_shape (env : Env) (update : Update) (w : World) :
  exists (k : nat) (report : list Event),
    trace (doDownloadUpdate env update w).2
    = trace w
      ++ [EvSetState (Updating update)]
      ++ (probe_history env w).*1
      ++ take k (pipeline env (version update))
      ++ report
      ++ [EvRimraf (downloadPath env (version update));
          EvRimraf (extractPath env (version update))]
    /\ (1 <= k <= 6)%nat
    /\ (report = [EvSetState (Ready update)] /\ k = 6%nat
        \/ exists error,
             report = [EvLogError error;
                       EvSetState (Idle Archive (Some (notification error)))]).
Proof.
  destruct w as [st files h]. unfold trace, probe_history.
  download_start env update files h.
  all: repeat oracle.
  all: rewrite !fmap_app, <- !app_assoc; cbn [fmap list_fmap fst app].
  all: first [ shape 1%nat update | shape 2%nat update | shape 3%nat update
             | shape 4%nat update | shape 5%nat update | shape 6%nat update ].
Qed.

(** Sweeping [p] leaves what is not under [p] alone. *)
Lemma kept (p q : jsstring) (m : gmap jsstring Content) :
  under p q = false ->
  filter (fun kv => under p kv.1 = false) m !! q = m !! q.
Proof.
  intros Hout. destruct (m !! q) as [data|] eqn:Hq.
  - by apply map_lookup_filter_Some_2.
  - apply map_lookup_filter_None. by left.
Qed.

(** A file stays in place through the download and the extraction. *)
Lemma survives_extraction (q archive : jsstring) (data : Content)
    (unpacked : list (jsstring * Content)) (m : gmap jsstring Content) :
  is_Some (m !! q) ->
  is_Some ((list_to_map unpacked ∪ <[archive := data]> m) !! q).
Proof.
  intros Hq. apply lookup_union_is_Some. right.
  apply lookup_insert_is_Some'. by right.
Qed.

(** Uses the known answer of a collaborator. *)
Ltac given H := rewrite H; cbv beta iota zeta.

(** X15: when every step succeeds, the archive holds the binary at the
    expected place and the running executable lies outside the two
    temporary paths, the attempt ends in [Ready] and the file at the
    running executable's path is the binary of the archive. *)
Theorem doDownloadUpdate_installs (env : Env) (update : Update) (w : World)
    (response : Response) (unpacked : list (jsstring * Content))
    (binary : Content) :
  let archive := downloadPath env (version update) in
  let dir := extractPath env (version update) in
  let newBinary :=
    newBinaryPath env (version update) (release_name env (version update)) in
  mkdirp_error env (tmpdir env) = None ->
  (forall url, request_result env url = Return response) ->
  writeFile_error env archive = None ->
  extract_result env archive dir = Return unpacked ->
  unlink_error env (argv0 env) = None ->
  move_error env newBinary (argv0 env) = None ->
  (list_to_map unpacked : gmap jsstring Content) !! newBinary = Some binary ->
  is_Some (fs w !! argv0 env) ->
  newBinary <> argv0 env ->
  under archive (argv0 env) = false ->
  under dir (argv0 env) = false ->
  state (doDownloadUpdate env update w).2 = Ready update
  /\ fs (doDownloadUpdate env update w).2 !! argv0 env = Some binary.
Proof.
  intros archive dir newBinary Hmkdirp Hrequest Hwrite Hextract Hunlink Hmove
    Hbinary Hexe Hdistinct Harchive Hdir.
  destruct w as [st files h]. cbn [fs] in Hexe.
  download_start env update files h.
  all: fold archive dir newBinary.
  all: given Hmkdirp; given Hrequest; given Hwrite; given Hextract;
       given Hunlink.
  all: match goal with
       | |- context [(list_to_map ?u ∪ <[?a := ?c]> ?m) !! ?q] =>
           destruct (survives_extraction q a c u m Hexe) as [old Hold]
       end; given Hold; given Hmove.
  all: rewrite lookup_delete_ne by done;
       erewrite lookup_union_Some_l by exact Hbinary;
       cbv beta iota zeta.
  all: repeat oracle.
  all: split; [reflexivity|].
  all: rewrite ?kept by done; by rewrite lookup_insert_eq.
Qed.

Lemma doDownloadUpdate_installs_witness :
  state (doDownloadUpdate linux_host_good_archive update_9_9_9 installed).2
  = Ready update_9_9_9
  /\ fs (doDownloadUpdate linux_host_good_archive update_9_9_9 installed).2
       !! argv0 linux_host_good_archive = Some [127; 69; 76; 70; 2].
Proof.
  apply (doDownloadUpdate_installs linux_host_good_archive update_9_9_9
           installed sample_response
           [(lit "/tmp/code-server/9.9.9/code-server9.9.9-linux-x86_64/code-server",
             [127; 69; 76; 70; 2])]);
    try reflexivity; [by eexists | discriminate].
Defined.

Lemma not_under_neq (p q : jsstring) : under p q = false -> q <> p.
Proof.
  unfold under. intros [Hne _]%orb_false_elim. by apply str_eqb_neq.
Qed.

(** X16: when the attempt fails before the swap (the temporary root cannot
    be made, the download fails, the archive cannot be written or
    extracted), the running executable is left as it was, provided it lies
    outside the two temporary paths: nothing is unlinked and nothing is
    moved. *)
Theorem doDownloadUpdate_early_failure (env : Env) (update : Update)
    (w : World) (error : Error) :
  let archive := downloadPath env (version update) in
  let dir := extractPath env (version update) in
  mkdirp_error env (tmpdir env) = Some error
  \/ (forall url, request_result env url = Throw error)
  \/ writeFile_error env archive = Some error
  \/ extract_result env archive dir = Throw error ->
  under archive (argv0 env) = false ->
  under dir (argv0 env) = false ->
  fs (doDownloadUpdate env update w).2 !! argv0 env = fs w !! argv0 env
  /\ exists effects,
       trace (doDownloadUpdate env update w).2 = trace w ++ effects
       /\ (forall p, EvUnlink p ∉ effects)
       /\ (forall src dst, EvMove src dst ∉ effects).
Proof.
  intros archive dir Hfails Harchive Hdir.
  pose proof (not_under_neq _ _ Harchive) as Hne.
  destruct w as [st files h]. unfold trace.
  download_start env update files h.
  all: fold archive dir; repeat oracle.
  all: try (destruct Hfails as [Hf|[Hf|[Hf|Hf]]]; first
              [ congruence
              | match goal with
                | H : request_result _ ?url = Return _ |- _ =>
                    rewrite Hf in H; discriminate H
                end ]).
  all: split;
    [ rewrite ?kept by done; by rewrite ?lookup_insert_ne by done
    | rewrite !fmap_app, <- !app_assoc; eexists; split; [reflexivity|];
      split; [intros p Hin | intros src dst Hin]; simpl in Hin;
      repeat (apply elem_of_cons in Hin as [Hin|Hin]; [discriminate Hin|]);
      by apply elem_of_nil in Hin ].
Qed.

(** X17: a download attempt only touches the running executable, the two
    temporary paths, the place of the new binary and what the archive
    unpacks: any other file is the same after the attempt as before. *)
Theorem doDownloadUpdate_frame (env : Env) (update : Update) (w : World)
    (q : jsstring) :
  let archive := downloadPath env (version update) in
  let dir := extractPath env (version update) in
  let newBinary :=
    newBinaryPath env (version update) (release_name env (version update)) in
  under archive q = false ->
  under dir q = false ->
  q <> argv0 env ->
  q <> newBinary ->
  (forall unpacked, extract_result env archive dir = Return unpacked ->
                    (list_to_map unpacked : gmap jsstring Content) !! q = None) ->
  fs (doDownloadUpdate env update w).2 !! q = fs w !! q.
Proof.
  intros archive dir newBinary Harchive Hdir Hexe Hbinary Hunpacked.
  pose proof (not_under_neq _ _ Harchive) as Hne.
  destruct w as [st files h].
  download_start env update files h.
  all: fold archive dir newBinary; repeat oracle.
  all: cbv beta iota zeta delta [fs snd].
  all: rewrite ?kept by done.
  all: rewrite ?lookup_insert_ne by done.
  all: rewrite ?lookup_delete_ne by done.
  all: rewrite ?lookup_union_r by eauto.
  all: by rewrite ?lookup_insert_ne by done.
Qed.

(** X18: what reaches the disk is decompressed exactly once: when the
    download succeeds, extraction starts with the archive file holding the
    gunzipped response if the host is not darwin and the response was not
    gzip-encoded, and the stream of the request service as it is
    otherwise. *)
Theorem doDownloadUpdate_writes_decompressed (env : Env) (update : Update)
    (w : World) (response : Response) :
  let archive := downloadPath env (version update) in
  let dir := extractPath env (version update) in
  mkdirp_error env (tmpdir env) = None ->
  (forall url, request_result env url = Return response) ->
  writeFile_error env archive = None ->
  exists effects snapshot,
    history (doDownloadUpdate env update w).2 = history w ++ effects
    /\ (EvExtract archive dir, snapshot) ∈ effects
    /\ snapshot !! archive = Some (written_data env response).
Proof.
  intros archive dir Hmkdirp Hrequest Hwrite.
  destruct w as [st files h].
  download_start env update files h.
  all: fold archive dir.
  all: given Hmkdirp; given Hrequest; given Hwrite.
  all: repeat oracle.
  all: rewrite <- !app_assoc; eexists _, _; (split; [reflexivity|]).
  all: split;
    [ simpl; repeat first [ apply list_elem_of_here
                          | apply list_elem_of_further ]
    | apply lookup_insert_eq ].
Qed.

(** X19: [Ready] is only reported once the swap is done: if an attempt
    ends in [Ready] and the running executable lies outside the two
    temporary paths, a file is linked at the running executable's path. *)
Theorem doDownloadUpdate_ready_means_installed (env : Env) (update : Update)
    (w : World) :
  let archive := downloadPath env (version update) in
  let dir := extractPath env (version update) in
  under archive (argv0 env) = false ->
  under dir (argv0 env) = false ->
  state (doDownloadUpdate env update w).2 = Ready update ->
  is_Some (fs (doDownloadUpdate env update w).2 !! argv0 env).
Proof.
  intros archive dir Harchive Hdir.
  destruct w as [st files h].
  download_start env update files h.
  all: fold archive dir; repeat oracle.
  all: cbv beta iota zeta delta [fs state snd].
  all: intros Hready; try discriminate Hready.
  all: rewrite ?kept by done; rewrite lookup_insert_eq; by eexists.
Qed.

Lemma doDownloadUpdate_early_failure_witness :
  fs (doDownloadUpdate (no_tmp linux_host ENOENT) update_9_9_9 installed).2
    !! argv0 linux_host
  = fs installed !! argv0 linux_host.
Proof.
  by destruct (doDownloadUpdate_early_failure (no_tmp linux_host ENOENT)
                 update_9_9_9 installed ENOENT (or_introl eq_refl)
                 eq_refl eq_refl) as [Hkept _].
Defined.

Lemma doDownloadUpdate_frame_witness :
  fs (doDownloadUpdate linux_host_good_archive update_9_9_9 installed).2
    !! lit "/etc/hostname"
  = fs installed !! lit "/etc/hostname".
Proof.
  apply (doDownloadUpdate_frame linux_host_good_archive update_9_9_9 installed
           (lit "/etc/hostname")); try reflexivity; try discriminate.
  by intros unpacked [= <-].
Defined.

Lemma doDownloadUpdate_writes_decompressed_witness :
  exists effects snapshot,
    history (doDownloadUpdate linux_host update_9_9_9 installed).2
    = history installed ++ effects
    /\ (EvExtract (downloadPath linux_host (version update_9_9_9))
          (extractPath linux_host (version update_9_9_9)), snapshot) ∈ effects
    /\ snapshot !! downloadPath linux_host (version update_9_9_9)
       = Some (written_data linux_host sample_response).
Proof.
  exact (doDownloadUpdate_writes_decompressed linux_host update_9_9_9
           installed sample_response eq_refl (fun _ => eq_refl) eq_refl).
Defined.

Lemma doDownloadUpdate_ready_means_installed_witness :
  is_Some (fs (doDownloadUpdate linux_host_good_archive update_9_9_9
                 installed).2 !! argv0 linux_host_good_archive).
Proof.
  exact (doDownloadUpdate_ready_means_installed linux_host_good_archive
           update_9_9_9 installed eq_refl eq_refl eq_refl).
Defined.

(** ** More on paths *)

Section CleanPaths.

Import Path.

Lemma glue_of_segments (p : jsstring) : glue (segments p) = p.
Proof.
  induction p as [|c p IH]; [done|]. cbn [segments].
  pose proof (segments_nonempty p) as Hsome.
  destruct (c =? SLASH) eqn:Hc.
  - apply N.eqb_eq in Hc. subst c.
    destruct (segments p) as [|seg segs]; [done|].
    change (glue ([] :: seg :: segs)) with (SLASH :: glue (seg :: segs)).
    by rewrite IH.
  - destruct (segments p) as [|seg segs]; [done|].
    rewrite <- IH. by destruct segs.
Qed.

Lemma regular_kept (allow : bool) (stack : list jsstring) (seg : jsstring) :
  regular seg -> norm_step allow stack seg = seg :: stack.
Proof.
  intros (Hsome & _ & Hdot & Hdots). unfold norm_step.
  apply str_eqb_neq in Hsome, Hdot, Hdots. by rewrite Hsome, Hdot, Hdots.
Qed.

Lemma norm_fold_regular (allow : bool) (segs : list jsstring) :
  Forall regular segs ->
  forall stack,
    fold_left (norm_step allow) segs stack = rev segs ++ stack.
Proof.
  induction 1 as [|seg segs Hseg _ IH]; intros stack; [done|].
  cbn [fold_left]. rewrite regular_kept, IH by done.
  simpl. by rewrite <- app_assoc.
Qed.

Lemma glue_snoc (l : list jsstring) (x : jsstring) :
  l <> [] -> glue (l ++ [x]) = glue l ++ SLASH :: x.
Proof.
  induction l as [|a l IH]; [done|]. intros _.
  destruct l as [|b l]; [done|].
  change (glue ((a :: b :: l) ++ [x]))
    with (a ++ SLASH :: glue ((b :: l) ++ [x])).
  rewrite IH by done.
  change (glue (a :: b :: l)) with (a ++ SLASH :: glue (b :: l)).
  by rewrite <- app_assoc.
Qed.

(** A root followed by regular segments is its own normal form. *)
Lemma normalize_clean (p : jsstring) : clean_absolute p -> normalize p = p.
Proof.
  intros (segs & Hsegs & Hsome & Hregular).
  assert (p = SLASH :: glue segs) as Hp.
  { rewrite <- (glue_of_segments p), Hsegs. by destruct segs. }
  assert (exists init x, segs = init ++ [x]) as (init & x & Hlast).
  { destruct segs as [|s segs] using rev_ind; [done|]. by exists segs, s. }
  assert (regular x) as (Hx & Hfree & _).
  { rewrite Forall_forall in Hregular. apply Hregular. subst segs.
    apply elem_of_app. right. apply list_elem_of_here. }
  assert (last_is_slash p = false) as Htrailing.
  { rewrite Hp, Hlast. destruct init as [|i init].
    - by apply (last_is_slash_suffix [SLASH] x).
    - rewrite glue_snoc by done.
      replace (SLASH :: glue (i :: init) ++ SLASH :: x)
        with ((SLASH :: glue (i :: init) ++ [SLASH]) ++ x)
        by (cbn [app]; by rewrite <- app_assoc).
      by apply last_is_slash_suffix. }
  assert (first_is_slash p = true) as Habsolute.
  { rewrite Hp. cbn [first_is_slash]. apply N.eqb_refl. }
  unfold normalize, normalizeString, norm_stack.
  rewrite Htrailing, Habsolute, Hsegs. cbn [negb fold_left].
  change (norm_step false [] []) with (@nil jsstring).
  rewrite norm_fold_regular by done. rewrite app_nil_r, rev_involutive.
  destruct p as [|c p']; [discriminate Hp|]. rewrite Hp.
  destruct (glue segs) as [|g gs] eqn:Hglue.
  - exfalso. revert Hglue. apply glue_nonempty; [done|].
    eapply Forall_impl; [exact Hregular|]. by intros s [? _].
  - by rewrite app_nil_r.
Qed.

Lemma filter_nonempty (l : list jsstring) :
  Forall (fun a => a <> []) l ->
  List.filter (fun a => negb (str_eqb a [])) l = l.
Proof.
  induction 1 as [|a l Ha _ IH]; [done|].
  cbn [List.filter]. apply str_eqb_neq in Ha. rewrite Ha. cbn [negb].
  by rewrite IH.
Qed.

(** [path.join] of a clean absolute directory and regular names only
    concatenates them. *)
Lemma join_clean (dir : jsstring) (names : list jsstring) :
  clean_absolute dir -> Forall regular names ->
  join (dir :: names) = glue (dir :: names) /\ clean_absolute (glue (dir :: names)).
Proof.
  intros (segs & Hsegs & Hsome & Hregular) Hnames.
  assert (clean_absolute (glue (dir :: names))) as Hclean.
  { exists (segs ++ names).
    assert (segments (glue (dir :: names)) = segments dir ++ names) as ->.
    { destruct names as [|n names]; [by rewrite app_nil_r|].
      change (glue (dir :: n :: names))
        with (dir ++ SLASH :: glue (n :: names)).
      rewrite segments_app_slash, glue_segments; [done..|].
      eapply Forall_impl; [exact Hnames|]. by intros s (_ & ? & _). }
    rewrite Hsegs. split; [done|]. split; [by destruct segs|].
    by apply Forall_app. }
  split; [|done]. unfold join.
  rewrite filter_nonempty; [by apply normalize_clean|].
  constructor.
  - intros ->. apply Hsome. by injection Hsegs.
  - eapply Forall_impl; [exact Hnames|]. by intros s [? _].
Qed.

Lemma regular_suffixed (v : jsstring) :
  slash_free v -> regular (v ++ lit "-archive").
Proof.
  intros Hfree. 
  assert (forall t : jsstring, (length t <= 2)%nat -> v ++ lit "-archive" <> t)
    as Hne.
  { intros t Ht Heq. apply (f_equal length) in Heq.
    rewrite length_app in Heq. simpl in Heq. lia. }
  repeat split; try (apply Hne; simpl; lia).
  apply Forall_app. split; [done | by repeat constructor].
Qed.

(** X20: with a temporary root that is an absolute path in normal form and
    a version that is a single regular path segment, the archive is
    downloaded to "<tmp>/<version>-archive" and extracted in
    "<tmp>/<version>", by plain concatenation. *)
Theorem temporary_paths_layout (env : Env) (release : jsstring) :
  clean_absolute (tmpdir env) ->
  regular release ->
  downloadPath env release = tmpdir env ++ lit "/" ++ release ++ lit "-archive"
  /\ extractPath env release = tmpdir env ++ lit "/" ++ release.
Proof.
  intros Htmp Hrelease. unfold downloadPath, extractPath.
  assert (Forall regular [release ++ lit "-archive"]) as Harchive.
  { constructor; [|constructor]. apply regular_suffixed.
    by destruct Hrelease as (_ & ? & _). }
  assert (Forall regular [release]) as Hdir.
  { constructor; [done | constructor]. }
  destruct (join_clean (tmpdir env) _ Htmp Harchive) as [-> _].
  destruct (join_clean (tmpdir env) _ Htmp Hdir) as [-> _].
  by split.
Qed.

Lemma slash_free_app (a b : jsstring) :
  slash_free a -> slash_free b -> slash_free (a ++ b).
Proof. intros Ha Hb. apply Forall_app. by split. Qed.

Lemma release_name_regular (env : Env) (release : jsstring) :
  slash_free release -> slash_free (platform env) -> slash_free (arch env) ->
  regular (release_name env release).
Proof.
  intros Hrelease Hos Hcpu.
  assert (slash_free (target_segment env)) as Htarget.
  { unfold target_segment. destruct (_ && _); [by repeat constructor | done]. }
  assert (slash_free (arch_segment env)) as Harch.
  { unfold arch_segment. destruct (str_eqb _ _); [by repeat constructor | done]. }
  unfold release_name. repeat split; try discriminate.
  repeat apply slash_free_app; try done; by repeat constructor.
Qed.

(** X21: with a temporary root in normal form, a version that is a single
    regular segment and host names without separators, the new binary is
    looked for at "<tmp>/<version>/<releaseName>/code-server", inside the
    extraction directory. *)
Theorem newBinaryPath_layout (env : Env) (release : jsstring) :
  clean_absolute (tmpdir env) ->
  regular release ->
  slash_free (platform env) -> slash_free (arch env) ->
  newBinaryPath env release (release_name env release)
  = extractPath env release ++ lit "/" ++ release_name env release
    ++ lit "/code-server"
  /\ under (extractPath env release)
       (newBinaryPath env release (release_name env release)) = true.
Proof.
  intros Htmp Hrelease Hos Hcpu.
  assert (Forall regular [release]) as Hdir.
  { constructor; [done | constructor]. }
  assert (Forall regular [release_name env release; lit "code-server"])
    as Hnames.
  { constructor; [|constructor; [|constructor]].
    - apply release_name_regular; try done. by destruct Hrelease as (_ & ? & _).
    - repeat split; try discriminate. by repeat constructor. }
  assert (clean_absolute (extractPath env release)) as Hclean.
  { unfold extractPath.
    by destruct (join_clean (tmpdir env) _ Htmp Hdir) as [-> ?]. }
  unfold newBinaryPath.
  destruct (join_clean (extractPath env release) _ Hclean Hnames) as [-> _].
  split; [done|]. unfold under. apply orb_true_iff. right.
  apply starts_with_prefix. eexists.
  change (glue [extractPath env release; release_name env release;
                lit "code-server"])
    with (extractPath env release
          ++ [SLASH] ++ release_name env release ++ SLASH :: lit "code-server").
  by rewrite app_assoc.
Qed.

End CleanPaths.

Lemma sample_tmpdir_clean : clean_absolute (lit "/tmp/code-server").
Proof.
  exists [lit "tmp"; lit "code-server"].
  split; [reflexivity|]. split; [done|].
  repeat constructor; discriminate.
Qed.

Lemma sample_version_regular : regular (lit "9.9.9").
Proof. repeat constructor; discriminate. Qed.

Lemma temporary_paths_layout_witness :
  downloadPath linux_host (lit "9.9.9") = lit "/tmp/code-server/9.9.9-archive"
  /\ extractPath linux_host (lit "9.9.9") = lit "/tmp/code-server/9.9.9".
Proof.
  exact (temporary_paths_layout linux_host (lit "9.9.9")
           sample_tmpdir_clean sample_version_regular).
Defined.

Lemma newBinaryPath_layout_witness :
  under (extractPath linux_host (lit "9.9.9"))
    (newBinaryPath linux_host (lit "9.9.9")
       (release_name linux_host (lit "9.9.9"))) = true.
Proof.
  apply (newBinaryPath_layout linux_host (lit "9.9.9")
           sample_tmpdir_clean sample_version_regular);
    repeat constructor; discriminate.
Defined.
